(** * zap text and ANSI encoders: a shallow embedding and its properties

    The development follows the three source files of the package:
    [bytes.go] (hexadecimal rendering), [text_encoder.go] (the line-oriented
    field encoder) and [ansi_encoder.go] (the colour-decorating variant).

    Go values are modelled as follows.
    - [[]byte] is [list byte]; a Go [string] is a [string], converted with
      [bs] where the source appends a string to a byte slice.
    - [*textEncoder] is a pointer [ptr] into a store; encoders are mutated in
      place, so every method is a state transformer over [World].
    - [sync.Pool] is a free list from which [Get] may take any element or
      ignore the list and allocate (the choice is an explicit argument).
    - [io.Writer] is a response function; the calls it receives are logged. *)

From Stdlib Require Import ZArith NArith Strings.Byte Strings.Ascii Strings.String.
From Stdlib Require Import Numbers.DecimalString Numbers.DecimalZ Numbers.DecimalPos Lia.
From stdpp Require Import base option list gmap.

Local Open Scope Z_scope.
Local Open Scope list_scope.

(** ** Byte slices and strings *)

(** [append(dst, s...)] for a string [s] appends the bytes of [s]. *)
Definition bs (s : string) : list byte := list_byte_of_string s.

(** ** bytes.go *)

Module Hex.

(** [const hextable = "0123456789ABCDEF"] *)
Definition hextable : list byte := bs "0123456789ABCDEF".

(** [hextable[i]]: indexing a string yields a byte; an index past the end
    panics in Go.  The two call sites index with [v>>4] and [v&0x0F], which
    are below 16 ([index_in_range]), so the default is never produced. *)
Definition index (i : N) : byte := default "000"%byte (hextable !! N.to_nat i).

(** [v>>4] and [v&0x0F] on a [byte]. *)
Definition hi (v : byte) : N := N.shiftr (Byte.to_N v) 4.
Definition lo (v : byte) : N := N.land (Byte.to_N v) 15.

(** [func hexEncode(dst []byte, src []byte) []byte]: the range loop is a
    left fold over [src] threading [dst]. *)
Definition hexEncode (dst src : list byte) : list byte :=
  let dst := dst ++ bs "0x" in
  fold_left (fun dst v => (dst ++ [index (hi v)]) ++ [index (lo v)]) src dst.

(** The two digits written for one byte. *)
Definition digits (v : byte) : list byte := [index (hi v); index (lo v)].

(** Upper-case hexadecimal digits and their values. *)
Definition hexval (c : byte) : option N :=
  let n := Byte.to_N c in
  if ((48 <=? n) && (n <=? 57))%N then Some (n - 48)%N
  else if ((65 <=? n) && (n <=? 70))%N then Some (n - 55)%N
  else None.

Definition is_upper_hex (c : byte) : Prop := is_Some (hexval c).

(** A reference decoder for the rendering: the prefix [0x], then pairs of
    upper-case digits, most significant first. *)
Fixpoint decodePairs (l : list byte) : option (list byte) :=
  match l with
  | [] => Some []
  | h :: l' =>
      match l' with
      | [] => None
      | d :: r =>
          match hexval h, hexval d, decodePairs r with
          | Some a, Some b, Some out =>
              match Byte.of_N (16 * a + b) with
              | Some v => Some (v :: out)
              | None => None
              end
          | _, _, _ => None
          end
      end
  end.

Definition hexDecode (l : list byte) : option (list byte) :=
  match l with
  | c0 :: cx :: r =>
      if Byte.eqb c0 "0" && Byte.eqb cx "x" then decodePairs r else None
  | _ => None
  end.

End Hex.

(** ** External libraries

    The encoders call into Go's standard library and into [mgutz/ansi].
    Those functions are not part of the package; they are the fields of
    the classes below.  [AppendFormat] and [AppendFloat] append the text
    that [Format] and [FormatFloat] return, so only the latter are fields. *)

(** [time.Time] with [t.Format(layout)]. *)
Class TimeLib := {
  Time : Type;
  time_Format : Time -> string -> string
}.

(** [float32], [float64], [math.IsNaN], [math.IsInf] and
    [strconv.FormatFloat(f, fmt, prec, bitSize)]. *)
Class FloatLib := {
  float32 : Type;
  float64 : Type;
  float64_of_float32 : float32 -> float64;
  math_IsNaN : float64 -> bool;
  math_IsInf : float64 -> Z -> bool;
  strconv_FormatFloat : float64 -> byte -> Z -> Z -> string
}.

(** [interface{}] values and [fmt.Sprintf("%+v", obj)]. *)
Class FmtLib := {
  Object : Type;
  fmt_Sprintf_plus_v : Object -> string
}.

(** [ansi.ColorCode(style)]. *)
Class AnsiLib := {
  ansi_ColorCode : string -> string
}.

(** [time.RFC3339] *)
Definition time_RFC3339 : string := "2006-01-02T15:04:05Z07:00".

(** [strconv.FormatInt(i, 10)] and [strconv.FormatUint(i, 10)]: decimal
    digits, with a leading minus sign for negative numbers. *)
Definition strconv_FormatInt (i : Z) : string := NilZero.string_of_int (Z.to_int i).
Definition strconv_FormatUint (i : N) : string :=
  NilZero.string_of_uint (N.to_uint i).

(** [len(b)] *)
Definition len (b : list byte) : Z := Z.of_nat (length b).

(** ** Errors, sinks and levels *)

(** A non-nil [error] value.  [errNilSink] is the package variable of that
    name, declared outside the three files and used here only as a value
    to return; [errorString] is what [errors.New] and [fmt.Errorf] build. *)
Inductive goerror : Type :=
| errNilSink
| errorString (msg : string).

(** An [error]: [None] is [nil]. *)
Definition error : Type := option goerror.

(** [fmt.Errorf("incomplete write: only wrote %v of %v bytes", n, expectedBytes)] *)
Definition errIncompleteWrite (n expectedBytes : Z) : goerror :=
  errorString ("incomplete write: only wrote " ++ strconv_FormatInt n ++ " of "
               ++ strconv_FormatInt expectedBytes ++ " bytes")%string.

(** An [io.Writer].  [Write history p] is what the call [Write(p)] returns
    when [history] lists the slices written before. *)
Record Writer : Type := { Write : list (list byte) -> list byte -> Z * error }.

(** Modelled from the spec: the type [Level] and its six constants are
    declared outside the files at hand; a level is "one of a small closed
    set (debug/info/warn/error/panic/fatal)" or any other integer, which is
    "rendered as its raw numeric value". *)
Definition Level : Type := Z.
Definition DebugLevel : Level := -1.
Definition InfoLevel : Level := 0.
Definition WarnLevel : Level := 1.
Definition ErrorLevel : Level := 2.
Definition PanicLevel : Level := 3.
Definition FatalLevel : Level := 4.

(** ** The store *)

(** [type textEncoder struct] *)
Record textEncoder : Type := mkText {
  bytes : list byte;
  timeFmt : string;
  noName : bool
}.

(** [type ansiEncoder struct]: the text encoder is embedded by value. *)
Record ansiEncoder : Type := mkAnsi {
  embedded : textEncoder;
  debugColor : string;
  infoColor : string;
  warnColor : string;
  errorColor : string;
  panicColor : string;
  fatalColor : string
}.

(** A [*textEncoder] points either to a text encoder of its own or to the
    one embedded in an ANSI encoder ([&enc.textEncoder]). *)
Inductive ptr : Type :=
| TextPtr (l : positive)
| AnsiText (l : positive).

#[global] Instance ptr_eq_dec : EqDecision ptr.
Proof. solve_decision. Defined.

(** The zero values of the two structs. *)
Definition zeroText : textEncoder := mkText [] "" false.
Definition zeroAnsi : ansiEncoder := mkAnsi zeroText "" "" "" "" "" "".

#[global] Instance textEncoder_inhabited : Inhabited textEncoder := populate zeroText.
#[global] Instance ansiEncoder_inhabited : Inhabited ansiEncoder := populate zeroAnsi.

(** Everything the package's code can read or change: the allocated
    encoders, the two pools and the slices handed to sinks so far. *)
Record World : Type := mkWorld {
  textHeap : gmap positive textEncoder;
  ansiHeap : gmap positive ansiEncoder;
  textPool : list ptr;
  ansiPool : list positive;
  sinkLog : list (list byte)
}.

Definition emptyWorld : World := mkWorld ∅ ∅ [] [] [].

(** Reading and writing through a [*textEncoder].  A location outside the
    heap is no Go pointer; reading it gives the zero struct. *)
Definition load (p : ptr) (w : World) : textEncoder :=
  match p with
  | TextPtr l => textHeap w !!! l
  | AnsiText l => embedded (ansiHeap w !!! l)
  end.

Definition setEmbedded (e : textEncoder) (a : ansiEncoder) : ansiEncoder :=
  mkAnsi e (debugColor a) (infoColor a) (warnColor a) (errorColor a)
         (panicColor a) (fatalColor a).

Definition store (p : ptr) (e : textEncoder) (w : World) : World :=
  match p with
  | TextPtr l =>
      mkWorld (<[l := e]> (textHeap w)) (ansiHeap w) (textPool w) (ansiPool w) (sinkLog w)
  | AnsiText l =>
      mkWorld (textHeap w) (<[l := setEmbedded e (ansiHeap w !!! l)]> (ansiHeap w))
              (textPool w) (ansiPool w) (sinkLog w)
  end.

(** A pointer is allocated, and an encoder is live when it is allocated
    and has not been released to the pool. *)
Definition allocated (p : ptr) (w : World) : Prop :=
  match p with
  | TextPtr l => l ∈ dom (textHeap w)
  | AnsiText l => l ∈ dom (ansiHeap w)
  end.

Definition live (p : ptr) (w : World) : Prop := allocated p w /\ p ∉ textPool w.

(** ** State transformers *)

Definition M (A : Type) : Type := World -> A * World.

Definition ret {A} (a : A) : M A := fun w => (a, w).
Definition bind {A B} (m : M A) (k : A -> M B) : M B :=
  fun w => let (a, w') := m w in k a w'.

Notation "'do' x <- m ; k" := (bind m (fun x => k))
  (at level 10, x name, m at level 100, k at level 200).
Notation "m ;; k" := (bind m (fun _ => k))
  (at level 100, k at level 200, right associativity).

(** [p.field] and [p.field = v] as transformers. *)
Definition get {A} (p : ptr) (field : textEncoder -> A) : M A :=
  fun w => (field (load p w), w).
Definition setBytes (p : ptr) (b : list byte) : M unit :=
  fun w => let e := load p w in (tt, store p (mkText b (timeFmt e) (noName e)) w).
Definition setTimeFmt (p : ptr) (s : string) : M unit :=
  fun w => let e := load p w in (tt, store p (mkText (bytes e) s (noName e)) w).
Definition setNoName (p : ptr) (v : bool) : M unit :=
  fun w => let e := load p w in (tt, store p (mkText (bytes e) (timeFmt e) v) w).

(** [p.bytes = append(p.bytes, b...)] *)
Definition append (p : ptr) (b : list byte) : M unit :=
  do old <- get p bytes; setBytes p (old ++ b).

(** [for _, x := range xs { f(x) }] *)
Fixpoint forEach {A} (f : A -> M unit) (xs : list A) : M unit :=
  match xs with
  | [] => ret tt
  | x :: xs' => f x ;; forEach f xs'
  end.

(** ** text_encoder.go *)

Section TextEncoder.
Context `{TimeLib} `{FloatLib} `{FmtLib}.

(** [var textPool = sync.Pool{New: ...}]: the [New] function returns a
    pointer to a struct whose only initialised field is an empty slice. *)
Definition textPool_New : M ptr := fun w =>
  let l := fresh (dom (textHeap w)) in
  (TextPtr l,
   mkWorld (<[l := mkText [] "" false]> (textHeap w)) (ansiHeap w)
           (textPool w) (ansiPool w) (sinkLog w)).

(** [textPool.Get()]: "Get selects an arbitrary item from the Pool, removes
    it from the Pool, and returns it to the caller.  Get may choose to
    ignore the pool and treat it as empty", in which case it calls [New].
    [pick] is that choice: [Some i] takes the [i]-th free item if there is
    one. *)
Definition textPool_Get (pick : option nat) : M ptr := fun w =>
  match pick with
  | Some i =>
      match textPool w !! i with
      | Some p =>
          (p, mkWorld (textHeap w) (ansiHeap w) (delete i (textPool w))
                      (ansiPool w) (sinkLog w))
      | None => textPool_New w
      end
  | None => textPool_New w
  end.

(** [textPool.Put(enc)] *)
Definition textPool_Put (p : ptr) : M unit := fun w =>
  (tt, mkWorld (textHeap w) (ansiHeap w) (p :: textPool w) (ansiPool w) (sinkLog w)).

(** [func (enc *textEncoder) truncate()] *)
Definition truncate (enc : ptr) : M unit :=
  do b <- get enc bytes; setBytes enc (take 0 b).

(** A [TextOption]: [textOptionFunc] is a function on a text
    encoder pointer and [apply] calls it. *)
Definition TextOption : Type := ptr -> M unit.

Definition TextTimeFormat (layout : string) : TextOption :=
  fun enc => setTimeFmt enc layout.

Definition TextNoTime : TextOption := TextTimeFormat "".

Definition TextNoName : TextOption := fun enc => setNoName enc true.

(** [func NewTextEncoder(options ...TextOption) Encoder] *)
Definition NewTextEncoder (pick : option nat) (options : list TextOption) : M ptr :=
  do enc <- textPool_Get pick;
  truncate enc ;;
  setTimeFmt enc time_RFC3339 ;;
  forEach (fun opt => opt enc) options ;;
  ret enc.

(** [func (enc *textEncoder) Free()] *)
Definition Free (enc : ptr) : M unit := textPool_Put enc.

(** [func (enc *textEncoder) addKey(key string)] *)
Definition addKey (enc : ptr) (key : string) : M unit :=
  do b <- get enc bytes;
  let lastIdx := len b - 1 in
  (if (0 <=? lastIdx) &&
      negb (Byte.eqb (default "000"%byte (b !! Z.to_nat lastIdx)) "{")
   then append enc [" "%byte]
   else ret tt) ;;
  append enc (bs key) ;;
  append enc ["="%byte].

(** [func (enc *textEncoder) AddString(key, val string)] *)
Definition AddString (enc : ptr) (key val : string) : M unit :=
  addKey enc key ;;
  append enc (bs val).

(** [func (enc *textEncoder) AddBool(key string, val bool)] *)
Definition AddBool (enc : ptr) (key : string) (val : bool) : M unit :=
  addKey enc key ;;
  if val then append enc (bs "true") else append enc (bs "false").

(** [func (enc *textEncoder) AddByte(key string, val byte)] *)
Definition AddByte (enc : ptr) (key : string) (val : byte) : M unit :=
  addKey enc key ;;
  append enc (bs "0x") ;;
  append enc [Hex.index (Hex.hi val)] ;;
  append enc [Hex.index (Hex.lo val)].

(** [func (enc *textEncoder) AddBytes(key string, val []byte)] *)
Definition AddBytes (enc : ptr) (key : string) (val : list byte) : M unit :=
  addKey enc key ;;
  do b <- get enc bytes;
  setBytes enc (Hex.hexEncode b val).

(** [func (enc *textEncoder) AddInt64(key string, val int64)] *)
Definition AddInt64 (enc : ptr) (key : string) (val : Z) : M unit :=
  addKey enc key ;;
  append enc (bs (strconv_FormatInt val)).

(** [func (enc *textEncoder) AddInt(key string, val int)]: the conversion
    [int64(val)] keeps the value. *)
Definition AddInt (enc : ptr) (key : string) (val : Z) : M unit :=
  AddInt64 enc key val.

(** [func (enc *textEncoder) AddUint64(key string, val uint64)] *)
Definition AddUint64 (enc : ptr) (key : string) (val : N) : M unit :=
  addKey enc key ;;
  append enc (bs (strconv_FormatUint val)).

(** [func (enc *textEncoder) AddUint(key string, val uint)] *)
Definition AddUint (enc : ptr) (key : string) (val : N) : M unit :=
  AddUint64 enc key val.

(** [func (enc *textEncoder) addFloat(key string, val float64, bitSize int)] *)
Definition addFloat (enc : ptr) (key : string) (val : float64) (bitSize : Z) : M unit :=
  addKey enc key ;;
  if math_IsNaN val then append enc (bs "NaN")
  else if math_IsInf val 1 then append enc (bs "+Inf")
  else if math_IsInf val (-1) then append enc (bs "-Inf")
  else append enc (bs (strconv_FormatFloat val "f" (-1) bitSize)).

(** [func (enc *textEncoder) AddFloat32(key string, val float32)] *)
Definition AddFloat32 (enc : ptr) (key : string) (val : float32) : M unit :=
  addFloat enc key (float64_of_float32 val) 32.

(** [func (enc *textEncoder) AddFloat64(key string, val float64)] *)
Definition AddFloat64 (enc : ptr) (key : string) (val : float64) : M unit :=
  addFloat enc key val 64.

(** [func (enc *textEncoder) AddMarshaler(key string, obj LogMarshaler) error].
    A [LogMarshaler] is its [MarshalLog] method, which receives the encoder
    it is to write to. *)
Definition LogMarshaler : Type := ptr -> M error.

Definition AddMarshaler (enc : ptr) (key : string) (obj : LogMarshaler) : M error :=
  addKey enc key ;;
  append enc ["{"%byte] ;;
  do err <- obj enc;
  append enc ["}"%byte] ;;
  ret err.

(** [func (enc *textEncoder) AddObject(key string, obj interface{}) error] *)
Definition AddObject (enc : ptr) (key : string) (obj : Object) : M error :=
  AddString enc key (fmt_Sprintf_plus_v obj) ;;
  ret None.

(** [func (enc *textEncoder) Clone() Encoder] *)
Definition Clone (pick : option nat) (enc : ptr) : M ptr :=
  do clone <- textPool_Get pick;
  truncate clone ;;
  do b <- get enc bytes;
  append clone b ;;
  do f <- get enc timeFmt;
  setTimeFmt clone f ;;
  ret clone.

(** [func (enc *textEncoder) addLevel(final *textEncoder, lvl Level)] *)
Definition addLevel (enc final : ptr) (lvl : Level) : M unit :=
  append final ["["%byte] ;;
  (if lvl =? DebugLevel then append final ["D"%byte]
   else if lvl =? InfoLevel then append final ["I"%byte]
   else if lvl =? WarnLevel then append final ["W"%byte]
   else if lvl =? ErrorLevel then append final ["E"%byte]
   else if lvl =? PanicLevel then append final ["P"%byte]
   else if lvl =? FatalLevel then append final ["F"%byte]
   else append final (bs (strconv_FormatInt lvl))) ;;
  append final ["]"%byte].

(** [func (enc *textEncoder) addTime(final *textEncoder, t time.Time)] *)
Definition addTime (enc final : ptr) (t : Time) : M unit :=
  do f <- get enc timeFmt;
  if String.eqb f "" then ret tt
  else
    append final [" "%byte] ;;
    do f <- get enc timeFmt;
    append final (bs (time_Format t f)).

(** [func (enc *textEncoder) addName(final *textEncoder, name string)] *)
Definition addName (enc final : ptr) (name : string) : M unit :=
  do n <- get enc noName;
  if String.eqb name "" || n then ret tt
  else
    append final [" "%byte] ;;
    append final (bs name).

(** [func (enc *textEncoder) addMessage(final *textEncoder, msg string)] *)
Definition addMessage (enc final : ptr) (msg : string) : M unit :=
  append final [" "%byte] ;;
  append final (bs msg).

(** [sink.Write(p)]: the call is logged and answered by the writer. *)
Definition sink_Write (sink : Writer) (p : list byte) : M (Z * error) := fun w =>
  (Write sink (sinkLog w) p,
   mkWorld (textHeap w) (ansiHeap w) (textPool w) (ansiPool w) (sinkLog w ++ [p])).

(** The tail shared by both [WriteEntry] methods: write, release the
    render buffer, check the outcome. *)
Definition writeFinal (sink : Writer) (final : ptr) : M error :=
  do line <- get final bytes;
  let expectedBytes := len line in
  do r <- sink_Write sink line;
  Free final ;;
  match snd r with
  | Some e => ret (Some e)
  | None =>
      if negb (fst r =? expectedBytes)
      then ret (Some (errIncompleteWrite (fst r) expectedBytes))
      else ret None
  end.

(** [func (enc *textEncoder) WriteEntry(sink io.Writer, name string,
    msg string, lvl Level, t time.Time) error]; a nil sink is [None]. *)
Definition WriteEntry (pick : option nat) (enc : ptr) (sink : option Writer)
    (name msg : string) (lvl : Level) (t : Time) : M error :=
  match sink with
  | None => ret (Some errNilSink)
  | Some sink =>
      do final <- textPool_Get pick;
      truncate final ;;
      addLevel enc final lvl ;;
      addTime enc final t ;;
      addName enc final name ;;
      addMessage enc final msg ;;
      do b <- get enc bytes;
      (if 0 <? len b
       then append final [" "%byte] ;;
            do b <- get enc bytes;
            append final b
       else ret tt) ;;
      append final ["010"%byte] ;;
      writeFinal sink final
  end.

End TextEncoder.

(** ** ansi_encoder.go *)

Module Ansi.
Section AnsiEncoder.
Context `{TimeLib} `{AnsiLib}.

(** The package variables initialised from [ansi.ColorCode]. *)
Definition resetColor : string := ansi_ColorCode "reset".
Definition defaultDebugColor : string := ansi_ColorCode "green".
Definition defaultInfoColor : string := ansi_ColorCode "green".
Definition defaultWarnColor : string := ansi_ColorCode "yellow".
Definition defaultErrorColor : string := ansi_ColorCode "red".
Definition defaultPanicColor : string := ansi_ColorCode "red".
Definition defaultFatalColor : string := ansi_ColorCode "red".

(** Field access through a [*ansiEncoder]. *)
Definition getA {A} (enc : positive) (field : ansiEncoder -> A) : M A :=
  fun w => (field (ansiHeap w !!! enc), w).

Definition updateA (enc : positive) (f : ansiEncoder -> ansiEncoder) : M unit :=
  fun w =>
    (tt, mkWorld (textHeap w) (<[enc := f (ansiHeap w !!! enc)]> (ansiHeap w))
                 (textPool w) (ansiPool w) (sinkLog w)).

Definition setDebugColor (enc : positive) (c : string) : M unit :=
  updateA enc (fun a => mkAnsi (embedded a) c (infoColor a) (warnColor a)
                               (errorColor a) (panicColor a) (fatalColor a)).
Definition setInfoColor (enc : positive) (c : string) : M unit :=
  updateA enc (fun a => mkAnsi (embedded a) (debugColor a) c (warnColor a)
                               (errorColor a) (panicColor a) (fatalColor a)).
Definition setWarnColor (enc : positive) (c : string) : M unit :=
  updateA enc (fun a => mkAnsi (embedded a) (debugColor a) (infoColor a) c
                               (errorColor a) (panicColor a) (fatalColor a)).
Definition setErrorColor (enc : positive) (c : string) : M unit :=
  updateA enc (fun a => mkAnsi (embedded a) (debugColor a) (infoColor a) (warnColor a)
                               c (panicColor a) (fatalColor a)).
Definition setPanicColor (enc : positive) (c : string) : M unit :=
  updateA enc (fun a => mkAnsi (embedded a) (debugColor a) (infoColor a) (warnColor a)
                               (errorColor a) c (fatalColor a)).
Definition setFatalColor (enc : positive) (c : string) : M unit :=
  updateA enc (fun a => mkAnsi (embedded a) (debugColor a) (infoColor a) (warnColor a)
                               (errorColor a) (panicColor a) c).

(** [ansiPool]: [New], [Get] and [Put] as for [textPool]. *)
Definition ansiPool_New : M positive := fun w =>
  let l := fresh (dom (ansiHeap w)) in
  (l, mkWorld (textHeap w) (<[l := mkAnsi (mkText [] "" false) "" "" "" "" "" ""]> (ansiHeap w))
              (textPool w) (ansiPool w) (sinkLog w)).

Definition ansiPool_Get (pick : option nat) : M positive := fun w =>
  match pick with
  | Some i =>
      match ansiPool w !! i with
      | Some l =>
          (l, mkWorld (textHeap w) (ansiHeap w) (textPool w)
                      (delete i (ansiPool w)) (sinkLog w))
      | None => ansiPool_New w
      end
  | None => ansiPool_New w
  end.

Definition ansiPool_Put (enc : positive) : M unit := fun w =>
  (tt, mkWorld (textHeap w) (ansiHeap w) (textPool w) (enc :: ansiPool w) (sinkLog w)).

(** An [ANSIOption]. *)
Definition ANSIOption : Type := positive -> M unit.

(** [func AnsiTextOption(to TextOption) ANSIOption] *)
Definition AnsiTextOption (to : TextOption) : ANSIOption :=
  fun enc => to (AnsiText enc).

(** [func NewANSIEncoder(options ...ANSIOption) Encoder] *)
Definition NewANSIEncoder (pick : option nat) (options : list ANSIOption) : M positive :=
  do enc <- ansiPool_Get pick;
  truncate (AnsiText enc) ;;
  setTimeFmt (AnsiText enc) time_RFC3339 ;;
  setDebugColor enc defaultDebugColor ;;
  setInfoColor enc defaultInfoColor ;;
  setWarnColor enc defaultWarnColor ;;
  setErrorColor enc defaultErrorColor ;;
  setPanicColor enc defaultPanicColor ;;
  setFatalColor enc defaultFatalColor ;;
  forEach (fun opt => opt enc) options ;;
  ret enc.

(** [func (enc *ansiEncoder) Clone() Encoder] *)
Definition Clone (pick : option nat) (enc : positive) : M positive :=
  do clone <- ansiPool_Get pick;
  truncate (AnsiText clone) ;;
  do b <- get (AnsiText enc) bytes;
  append (AnsiText clone) b ;;
  do f <- get (AnsiText enc) timeFmt;
  setTimeFmt (AnsiText clone) f ;;
  do c <- getA enc debugColor; setDebugColor clone c ;;
  do c <- getA enc infoColor; setInfoColor clone c ;;
  do c <- getA enc warnColor; setWarnColor clone c ;;
  do c <- getA enc errorColor; setErrorColor clone c ;;
  do c <- getA enc panicColor; setPanicColor clone c ;;
  do c <- getA enc fatalColor; setFatalColor clone c ;;
  ret clone.

(** [func (enc *ansiEncoder) Free()] *)
Definition Free (enc : positive) : M unit := ansiPool_Put enc.

(** [func (enc *ansiEncoder) addLevelColor(final *textEncoder, lvl Level)] *)
Definition addLevelColor (enc : positive) (final : ptr) (lvl : Level) : M unit :=
  if lvl =? DebugLevel then do c <- getA enc debugColor; append final (bs c)
  else if lvl =? InfoLevel then do c <- getA enc infoColor; append final (bs c)
  else if lvl =? WarnLevel then do c <- getA enc warnColor; append final (bs c)
  else if lvl =? ErrorLevel then do c <- getA enc errorColor; append final (bs c)
  else if lvl =? PanicLevel then do c <- getA enc panicColor; append final (bs c)
  else if lvl =? FatalLevel then do c <- getA enc fatalColor; append final (bs c)
  else ret tt.

(** [func (enc *ansiEncoder) clearLevelColor(final *textEncoder, lvl Level)] *)
Definition clearLevelColor (enc : positive) (final : ptr) (lvl : Level) : M unit :=
  if (lvl =? DebugLevel) || (lvl =? InfoLevel) || (lvl =? WarnLevel)
     || (lvl =? ErrorLevel) || (lvl =? PanicLevel) || (lvl =? FatalLevel)
  then append final (bs resetColor)
  else ret tt.

(** [func (enc *ansiEncoder) WriteEntry(sink io.Writer, name string,
    msg string, lvl Level, t time.Time) error] *)
Definition WriteEntry (pick : option nat) (enc : positive) (sink : option Writer)
    (name msg : string) (lvl : Level) (t : Time) : M error :=
  match sink with
  | None => ret (Some errNilSink)
  | Some sink =>
      do final <- textPool_Get pick;
      truncate final ;;
      addLevelColor enc final lvl ;;
      addLevel (AnsiText enc) final lvl ;;
      addTime (AnsiText enc) final t ;;
      addName (AnsiText enc) final name ;;
      addMessage (AnsiText enc) final msg ;;
      do b <- get (AnsiText enc) bytes;
      (if 0 <? len b
       then append final [" "%byte] ;;
            do b <- get (AnsiText enc) bytes;
            append final b
       else ret tt) ;;
      clearLevelColor enc final lvl ;;
      append final ["010"%byte] ;;
      writeFinal sink final
  end.

End AnsiEncoder.
End Ansi.

(** ** Marshalers that use the encoder they are given

    [MarshalLog] receives the encoder behind the [KeyValue] interface
    (declared outside the three files; its methods are taken to be the [Add]
    methods of [textEncoder]), so all it can do to the encoder is call
    these methods, possibly nested, look at the errors they return and
    return an error of its own.  [Prog] is the type of such method
    bodies. *)

Section KeyValue.
Context `{FloatLib} `{FmtLib}.

(** One call of an [Add] method other than [AddMarshaler]. *)
Inductive SimpleField : Type :=
| FString (key val : string)
| FBool (key : string) (val : bool)
| FByte (key : string) (val : byte)
| FBytes (key : string) (val : list byte)
| FInt (key : string) (val : Z)
| FInt64 (key : string) (val : Z)
| FUint (key : string) (val : N)
| FUint64 (key : string) (val : N)
| FFloat32 (key : string) (val : float32)
| FFloat64 (key : string) (val : float64)
| FObject (key : string) (obj : Object).

(** [AddObject] always returns nil, so only the continuation after
    [AddMarshaler] depends on an error. *)
Inductive Prog : Type :=
| Return (err : error)
| Call (f : SimpleField) (k : Prog)
| CallMarshaler (key : string) (obj : Prog) (k : error -> Prog).

Definition AddSimple (f : SimpleField) (enc : ptr) : M unit :=
  match f with
  | FString key val => AddString enc key val
  | FBool key val => AddBool enc key val
  | FByte key val => AddByte enc key val
  | FBytes key val => AddBytes enc key val
  | FInt key val => AddInt enc key val
  | FInt64 key val => AddInt64 enc key val
  | FUint key val => AddUint enc key val
  | FUint64 key val => AddUint64 enc key val
  | FFloat32 key val => AddFloat32 enc key val
  | FFloat64 key val => AddFloat64 enc key val
  | FObject key obj => AddObject enc key obj ;; ret tt
  end.

Fixpoint MarshalLog (p : Prog) (kv : ptr) : M error :=
  match p with
  | Return err => ret err
  | Call f k => AddSimple f kv ;; MarshalLog k kv
  | CallMarshaler key obj k =>
      do err <- AddMarshaler kv key (MarshalLog obj);
      MarshalLog (k err) kv
  end.

(** Any [Add<Type>(k, v)] call. *)
Inductive Field : Type :=
| Simple (f : SimpleField)
| Marshaler (key : string) (obj : Prog).

Definition Add (f : Field) (enc : ptr) : M error :=
  match f with
  | Simple f => AddSimple f enc ;; ret None
  | Marshaler key obj => AddMarshaler enc key (MarshalLog obj)
  end.

Definition simpleKey (f : SimpleField) : string :=
  match f with
  | FString key _ | FBool key _ | FByte key _ | FBytes key _ | FInt key _
  | FInt64 key _ | FUint key _ | FUint64 key _ | FFloat32 key _
  | FFloat64 key _ | FObject key _ => key
  end.

Definition fieldKey (f : Field) : string :=
  match f with
  | Simple f => simpleKey f
  | Marshaler key _ => key
  end.

(** The text [addFloat] writes after the key. *)
Definition floatText (val : float64) (bitSize : Z) : list byte :=
  if math_IsNaN val then bs "NaN"
  else if math_IsInf val 1 then bs "+Inf"
  else if math_IsInf val (-1) then bs "-Inf"
  else bs (strconv_FormatFloat val "f" (-1) bitSize).

(** The text each method writes after [key=]. *)
Definition valueText (f : SimpleField) : list byte :=
  match f with
  | FString _ val => bs val
  | FBool _ val => if val then bs "true" else bs "false"
  | FByte _ val => bs "0x" ++ Hex.digits val
  | FBytes _ val => bs "0x" ++ concat (map Hex.digits val)
  | FInt _ val | FInt64 _ val => bs (strconv_FormatInt val)
  | FUint _ val | FUint64 _ val => bs (strconv_FormatUint val)
  | FFloat32 _ val => floatText (float64_of_float32 val) 32
  | FFloat64 _ val => floatText val 64
  | FObject _ obj => bs (fmt_Sprintf_plus_v obj)
  end.

End KeyValue.

(** ** Rendered lines as byte sequences

    The functions below describe, without a store, the bytes the methods
    are meant to produce; the theorems relate the methods to them. *)

(** The separator [addKey] writes before a key when the buffer is [b]. *)
Definition separator (b : list byte) : list byte :=
  match last b with
  | None => []
  | Some c => if Byte.eqb c "{" then [] else [" "%byte]
  end.

(** Nesting depth: opening braces minus closing braces. *)
Definition depth (b : list byte) : Z :=
  fold_right (fun c d => (if Byte.eqb c "{" then 1 else if Byte.eqb c "}" then -1 else 0) + d)
             0 b.

(** The bytes a marshaler body appends to a buffer that holds [b], and
    the error it returns. *)
Fixpoint progOut `{FloatLib} `{FmtLib} (p : Prog) (b : list byte) : list byte * error :=
  match p with
  | Return err => ([], err)
  | Call f k =>
      let x := separator b ++ bs (simpleKey f) ++ bs "=" ++ valueText f in
      let r := progOut k (b ++ x) in
      (x ++ fst r, snd r)
  | CallMarshaler key obj k =>
      let x := separator b ++ bs key ++ bs "=" ++ bs "{" in
      let r := progOut obj (b ++ x) in
      let y := x ++ fst r ++ bs "}" in
      let r' := progOut (k (snd r)) (b ++ y) in
      (y ++ fst r', snd r')
  end.

(** Matching braces: reading [b] from nesting depth [d], the depth never
    drops below zero; [scan] returns the depth reached. *)
Fixpoint scan (d : Z) (b : list byte) : option Z :=
  match b with
  | [] => Some d
  | c :: r =>
      let d' := d + (if Byte.eqb c "{" then 1 else if Byte.eqb c "}" then -1 else 0) in
      if d' <? 0 then None else scan d' r
  end.

Definition balanced (b : list byte) : Prop := scan 0 b = Some 0.

(** A marshaler body all of whose keys and value texts are balanced. *)
Fixpoint wellBraced `{FloatLib} `{FmtLib} (p : Prog) : Prop :=
  match p with
  | Return _ => True
  | Call f k =>
      balanced (bs (simpleKey f)) /\ balanced (valueText f) /\ wellBraced k
  | CallMarshaler key obj k =>
      balanced (bs key) /\ wellBraced obj /\ forall err, wellBraced (k err)
  end.

Definition recognized (lvl : Level) : bool :=
  (lvl =? DebugLevel) || (lvl =? InfoLevel) || (lvl =? WarnLevel)
  || (lvl =? ErrorLevel) || (lvl =? PanicLevel) || (lvl =? FatalLevel).

Definition levelTag (lvl : Level) : list byte :=
  bs "[" ++
  (if lvl =? DebugLevel then bs "D"
   else if lvl =? InfoLevel then bs "I"
   else if lvl =? WarnLevel then bs "W"
   else if lvl =? ErrorLevel then bs "E"
   else if lvl =? PanicLevel then bs "P"
   else if lvl =? FatalLevel then bs "F"
   else bs (strconv_FormatInt lvl)) ++ bs "]".

Section Lines.
Context `{TimeLib}.

(** Level tag, time, name, message and fields: a line without its
    newline. *)
Definition entryBody (e : textEncoder) (name msg : string) (lvl : Level) (t : Time)
    : list byte :=
  levelTag lvl
  ++ (if String.eqb (timeFmt e) "" then [] else bs " " ++ bs (time_Format t (timeFmt e)))
  ++ (if String.eqb name "" || noName e then [] else bs " " ++ bs name)
  ++ bs " " ++ bs msg
  ++ (if 0 <? len (bytes e) then bs " " ++ bytes e else []).

Definition textLine (e : textEncoder) (name msg : string) (lvl : Level) (t : Time)
    : list byte :=
  entryBody e name msg lvl t ++ ["010"%byte].

Definition levelColor (a : ansiEncoder) (lvl : Level) : string :=
  if lvl =? DebugLevel then debugColor a
  else if lvl =? InfoLevel then infoColor a
  else if lvl =? WarnLevel then warnColor a
  else if lvl =? ErrorLevel then errorColor a
  else if lvl =? PanicLevel then panicColor a
  else if lvl =? FatalLevel then fatalColor a
  else "".

Definition ansiLine `{AnsiLib} (a : ansiEncoder) (name msg : string) (lvl : Level)
    (t : Time) : list byte :=
  bs (levelColor a lvl)
  ++ entryBody (embedded a) name msg lvl t
  ++ (if recognized lvl then bs Ansi.resetColor else [])
  ++ ["010"%byte].

End Lines.

(** What [WriteEntry] returns for a sink's answer [(n, err)] to a write of
    [expected] bytes. *)
Definition writeOutcome (r : Z * error) (expected : Z) : error :=
  match snd r with
  | Some e => Some e
  | None => if fst r =? expected then None
            else Some (errIncompleteWrite (fst r) expected)
  end.

(** ** Concrete libraries and sinks for the examples *)

Module GoTime.

(** A [time.Time] in UTC, as seconds since 1970-01-01T00:00:00Z. *)
Definition Unix : Type := Z.

Record civil : Type := { year : Z; month : Z; day : Z; hour : Z; minute : Z; second : Z }.

(** The proleptic Gregorian date and the clock time of an instant. *)
Definition toCivil (t : Unix) : civil :=
  let days := t / 86400 in
  let secs := t mod 86400 in
  let z := days + 719468 in
  let era := z / 146097 in
  let doe := z - era * 146097 in
  let yoe := (doe - doe / 1460 + doe / 36524 - doe / 146096) / 365 in
  let doy := doe - (365 * yoe + yoe / 4 - yoe / 100) in
  let mp := (5 * doy + 2) / 153 in
  let d := doy - (153 * mp + 2) / 5 + 1 in
  let m := if mp <? 10 then mp + 3 else mp - 9 in
  let y := yoe + era * 400 + (if m <=? 2 then 1 else 0) in
  {| year := y; month := m; day := d;
     hour := secs / 3600; minute := (secs mod 3600) / 60; second := secs mod 60 |}.

(** Decimal digits, padded with zeros on the left to [width]. *)
Fixpoint zeros (n : nat) : string :=
  match n with O => ""%string | S n' => String "0" (zeros n') end.

Definition pad (width : nat) (n : Z) : string :=
  let d := strconv_FormatInt n in
  (zeros (width - String.length d) ++ d)%string.

(** [t.Format(layout)] for layouts made of the elements of RFC 3339:
    [2006], [01], [02], [15], [04], [05] and [Z07:00] are replaced by the
    year, month, day, hour, minute, second and the zone (always [Z] in
    UTC); any other character is copied.  [skip] counts the characters of
    an element still to be passed over. *)
Fixpoint formatFrom (c : civil) (skip : nat) (layout : string) : string :=
  match layout with
  | EmptyString => EmptyString
  | String ch rest =>
      match skip with
      | S skip' => formatFrom c skip' rest
      | O =>
          if String.prefix "2006" layout then (pad 4 (year c) ++ formatFrom c 3 rest)%string
          else if String.prefix "01" layout then (pad 2 (month c) ++ formatFrom c 1 rest)%string
          else if String.prefix "02" layout then (pad 2 (day c) ++ formatFrom c 1 rest)%string
          else if String.prefix "15" layout then (pad 2 (hour c) ++ formatFrom c 1 rest)%string
          else if String.prefix "04" layout then (pad 2 (minute c) ++ formatFrom c 1 rest)%string
          else if String.prefix "05" layout then (pad 2 (second c) ++ formatFrom c 1 rest)%string
          else if String.prefix "Z07:00" layout then String "Z" (formatFrom c 5 rest)
          else String ch (formatFrom c 0 rest)
      end
  end.

Definition Format (t : Unix) (layout : string) : string :=
  formatFrom (toCivil t) 0 layout.

Definition lib : TimeLib := {| Time := Unix; time_Format := Format |}.

End GoTime.

Module Examples.

(** The escape character. *)
Definition esc : string := String "027" EmptyString.

(** A stand-in for [ansi.ColorCode] on the four styles the package asks
    for. *)
Definition ColorCode (style : string) : string :=
  if String.eqb style "reset" then (esc ++ "[0m")%string
  else if String.eqb style "green" then (esc ++ "[32m")%string
  else if String.eqb style "yellow" then (esc ++ "[33m")%string
  else if String.eqb style "red" then (esc ++ "[31m")%string
  else ""%string.

Definition ansi : AnsiLib := {| ansi_ColorCode := ColorCode |}.

(** The three special floating-point values, with [math.IsNaN],
    [math.IsInf] and [strconv.FormatFloat] on them.  Finite values are left
    to the library. *)
Inductive special : Type := NaN | PosInf | NegInf.

Definition floats : FloatLib :=
  {| float32 := special;
     float64 := special;
     float64_of_float32 := fun v => v;
     math_IsNaN := fun v => match v with NaN => true | _ => false end;
     math_IsInf := fun v sign =>
       match v with
       | NaN => false
       | PosInf => 0 <=? sign
       | NegInf => sign <=? 0
       end;
     strconv_FormatFloat := fun v _ _ _ =>
       match v with
       | NaN => "NaN"%string
       | PosInf => "+Inf"%string
       | NegInf => "-Inf"%string
       end |}.

(** Objects that are strings: [%+v] prints a string as it is. *)
Definition strings : FmtLib :=
  {| Object := string; fmt_Sprintf_plus_v := fun s => s |}.

(** A sink that accepts every slice whole, as [bytes.Buffer] does. *)
Definition buffer : Writer := {| Write := fun _ p => (len p, None) |}.

(** A sink that fails with the given error. *)
Definition failing (e : goerror) : Writer := {| Write := fun _ _ => (0, Some e) |}.

(** A sink that drops the last byte and reports no error. *)
Definition short : Writer := {| Write := fun _ p => (len p - 1, None) |}.

(** A sink that reports one byte more than it was given. *)
Definition overcount : Writer := {| Write := fun _ p => (len p + 1, None) |}.

(** 2021-01-01T00:00:00Z *)
Definition newYear2021 : GoTime.Unix := 1609459200.

(** A store holding one text encoder at location 1 and one ANSI encoder
    at location 1, with the given contents. *)
Definition oneText (e : textEncoder) : World :=
  mkWorld {[ 1%positive := e ]} ∅ [] [] [].

Definition oneAnsi (a : ansiEncoder) : World :=
  mkWorld ∅ {[ 1%positive := a ]} [] [] [].

(** A store with a text encoder at location 1 holding no field, a text
    encoder at location 2 holding [count=3], and an ANSI encoder at
    location 1 holding [count=3] with the colours of the scenario. *)
Definition scenario : World :=
  mkWorld {[ 1%positive := mkText [] time_RFC3339 false;
             2%positive := mkText (bs "count=3") time_RFC3339 false ]}
          {[ 1%positive := mkAnsi (mkText (bs "count=3") time_RFC3339 false)
                                  "" (esc ++ "[32m") "" "" "" "" ]}
          [] [] [].

(** The same encoders obtained through the package's functions, starting
    from an empty store and empty pools: a default text encoder, a second
    one with the field [count=3], and one built with [TextNoName] holding
    [a=1]. *)
Definition fresh0 : ptr * World := NewTextEncoder None [] emptyWorld.

Definition counted : ptr * World :=
  (do enc <- NewTextEncoder None []; AddInt enc "count" 3 ;; ret enc) (snd fresh0).

Definition unnamed : ptr * World :=
  (do enc <- NewTextEncoder None [TextNoName]; AddInt enc "a" 1 ;; ret enc) emptyWorld.




(** The rendered lines of the scenario. *)
Definition plainLine : list byte :=
  bs "[I] 2021-01-01T00:00:00Z svc started" ++ ["010"%byte].

End Examples.
(** ** Appending to an encoder in the store *)

(** The encoder [e] with [x] appended to its buffer. *)
Definition grow (e : textEncoder) (x : list byte) : textEncoder :=
  mkText (bytes e ++ x) (timeFmt e) (noName e).

(** The world after [x] has been appended to the buffer of [p]. *)
Definition pushed (p : ptr) (x : list byte) (w : World) : World :=
  store p (grow (load p w) x) w.

(** The world after [line] has been handed to a sink and the render
    buffer [final] has been put back into the pool. *)
Definition written (final : ptr) (line : list byte) (w : World) : World :=
  mkWorld (textHeap w) (ansiHeap w) (final :: textPool w) (ansiPool w)
          (sinkLog w ++ [line]).

(** A transformer that writes to no sink. *)
Definition silent {A} (m : M A) : Prop :=
  forall w, sinkLog (snd (m w)) = sinkLog w.

(** A transformer that makes one call to [sink] and returns what
    [WriteEntry] makes of the answer. *)
Definition writesOnce (sink : Writer) (m : M error) : Prop :=
  forall w, exists line,
    sinkLog (snd (m w)) = sinkLog w ++ [line] /\
    fst (m w) = writeOutcome (Write sink (sinkLog w) line) (len line).

(** What a call of [WriteEntry] that started in [w] and ended with [r]
    must satisfy: with no sink it returns [errNilSink] and changes nothing;
    with a sink it makes one call, fails exactly when the sink reports an
    error or a count other than the length of the slice, and returns the
    sink's error or an incomplete-write error with the two counts. *)
Definition writeEntrySpec (sink : option Writer) (w : World) (r : error * World) : Prop :=
  match sink with
  | None => fst r = Some errNilSink /\ snd r = w
  | Some wr =>
      exists line,
        sinkLog (snd r) = sinkLog w ++ [line] /\
        let ans := Write wr (sinkLog w) line in
        (fst r <> None <-> (snd ans <> None \/ (snd ans = None /\ fst ans <> len line))) /\
        (forall e, snd ans = Some e -> fst r = Some e) /\
        (snd ans = None -> fst ans <> len line ->
         fst r = Some (errIncompleteWrite (fst ans) (len line)))
  end.

(** ** Options, pool discipline and field lists *)

(** The three options the package exports, as data. *)
Inductive textOpt : Type :=
| OptTimeFormat (layout : string)
| OptNoTime
| OptNoName.

Definition toTextOption (o : textOpt) : TextOption :=
  match o with
  | OptTimeFormat layout => TextTimeFormat layout
  | OptNoTime => TextNoTime
  | OptNoName => TextNoName
  end.

(** The layout and the name flag a list of options leaves, applied in
    order to an encoder that starts with [layout] and [flag]. *)
Definition layoutAfter (opts : list textOpt) (layout : string) : string :=
  fold_left (fun acc o =>
               match o with
               | OptTimeFormat l => l
               | OptNoTime => ""%string
               | OptNoName => acc
               end) opts layout.

Definition flagAfter (opts : list textOpt) (flag : bool) : bool :=
  fold_left (fun acc o =>
               match o with
               | OptNoName => true
               | _ => acc
               end) opts flag.

(** An ANSI encoder that is allocated and not released. *)
Definition liveA (enc : positive) (w : World) : Prop :=
  enc ∈ dom (ansiHeap w) /\ enc ∉ ansiPool w.

(** The text pool holds allocated encoders, each at most once: what
    [Get], [Put] on live encoders and [New] maintain. *)
Definition poolOK (w : World) : Prop :=
  NoDup (textPool w) /\ forall p, p ∈ textPool w -> allocated p w.

(** One field as it reads in a buffer, and fields joined by single
    spaces. *)
Definition fieldText `{FloatLib} `{FmtLib} (f : SimpleField) : list byte :=
  bs (simpleKey f) ++ bs "=" ++ valueText f.

Fixpoint joinFields `{FloatLib} `{FmtLib} (fs : list SimpleField) : list byte :=
  match fs with
  | [] => []
  | [f] => fieldText f
  | f :: fs' => fieldText f ++ bs " " ++ joinFields fs'
  end.

(** The marshaler body that adds the fields [fs] in order and returns
    [err]. *)
Definition progOf `{FloatLib} `{FmtLib} (fs : list SimpleField) (err : error) : Prog :=
  fold_right Call (Return err) fs.

(** A field after which the next key needs a separator: its value text
    does not end in an opening brace. *)
Definition closed `{FloatLib} `{FmtLib} (f : SimpleField) : Prop :=
  last (valueText f) <> Some "{"%byte.

(** The world with the ANSI encoder at [l] replaced by [a]. *)
Definition storeA (l : positive) (a : ansiEncoder) (w : World) : World :=
  mkWorld (textHeap w) (<[l := a]> (ansiHeap w)) (textPool w) (ansiPool w) (sinkLog w).

(** Reading a level back from its tag: the letters name the six levels,
    anything else between the brackets is read as a decimal integer. *)
Definition parseLevel (s : string) : option Level :=
  if String.eqb s "D" then Some DebugLevel
  else if String.eqb s "I" then Some InfoLevel
  else if String.eqb s "W" then Some WarnLevel
  else if String.eqb s "E" then Some ErrorLevel
  else if String.eqb s "P" then Some PanicLevel
  else if String.eqb s "F" then Some FatalLevel
  else match NilZero.int_of_string s with
       | Some d => Some (Z.of_int d)
       | None => None
       end.

Definition parseLevelTag (tag : list byte) : option Level :=
  match tag with
  | c :: rest =>
      match last rest with
      | Some c' =>
          if Byte.eqb c "[" && Byte.eqb c' "]"
          then parseLevel (string_of_list_byte (removelast rest))
          else None
      | None => None
      end
  | [] => None
  end.

(** * Properties *)

(** ** bytes.go: [hexEncode] *)

Lemma index_in_range (v : byte) :
  is_Some (Hex.hextable !! N.to_nat (Hex.hi v)) /\
  is_Some (Hex.hextable !! N.to_nat (Hex.lo v)).
Proof. destruct v; split; vm_compute; eauto. Qed.

Lemma hexEncode_fold (src acc : list byte) :
  fold_left (fun dst v => (dst ++ [Hex.index (Hex.hi v)]) ++ [Hex.index (Hex.lo v)]) src acc
  = acc ++ concat (map Hex.digits src).
Proof.
  revert acc. induction src as [|v src IH]; intros acc; simpl.
  - by rewrite app_nil_r.
  - rewrite IH. by rewrite <- !app_assoc.
Qed.

Lemma hexEncode_app (dst src : list byte) :
  Hex.hexEncode dst src = dst ++ bs "0x" ++ concat (map Hex.digits src).
Proof. unfold Hex.hexEncode. rewrite hexEncode_fold. by rewrite <- app_assoc. Qed.

Lemma digits_upper (v : byte) : Forall Hex.is_upper_hex (Hex.digits v).
Proof.
  destruct v; repeat constructor; vm_compute; eauto.
Qed.

Lemma decode_digits (v : byte) (r : list byte) :
  Hex.decodePairs (Hex.digits v ++ r) =
  match Hex.decodePairs r with Some out => Some (v :: out) | None => None end.
Proof.
  destruct v; reflexivity.
Qed.

Lemma decodePairs_render (src : list byte) :
  Hex.decodePairs (concat (map Hex.digits src)) = Some src.
Proof.
  induction src as [|v src IH]; [done|].
  cbn [map concat]. rewrite decode_digits. by rewrite IH.
Qed.

(** C7. For every destination buffer and every source, [hexEncode] keeps the
    destination as a prefix and appends [0x] followed by the two upper-case
    hexadecimal digits of each source byte in order (so [2 * len(src)]
    digits); decoding what was appended gives the source back. *)
Theorem hexEncode_roundtrip (dst src : list byte) :
  let rendered := drop (length dst) (Hex.hexEncode dst src) in
  Hex.hexEncode dst src = dst ++ rendered /\
  rendered = bs "0x" ++ concat (map Hex.digits src) /\
  length (concat (map Hex.digits src)) = (2 * length src)%nat /\
  Forall Hex.is_upper_hex (concat (map Hex.digits src)) /\
  Hex.hexDecode rendered = Some src.
Proof.
  cbv zeta. rewrite hexEncode_app. rewrite drop_app_length.
  split; [done|]. split; [done|]. split; [|split].
  - induction src as [|v src IH]; [done|]. cbn [map concat].
    rewrite length_app, IH. simpl. lia.
  - induction src as [|v src IH]; [constructor|]. cbn [map concat].
    apply Forall_app. split; [apply digits_upper|done].
  - change (Hex.hexDecode (bs "0x" ++ concat (map Hex.digits src)))
      with (Hex.decodePairs (concat (map Hex.digits src))).
    apply decodePairs_render.
Qed.

(** ** The store and the state transformers *)

Arguments load : simpl never.
Arguments store : simpl never.

Lemma load_store_eq p e w : load p (store p e w) = e.
Proof.
  destruct p; unfold load, store; cbn.
  - by rewrite lookup_total_insert_eq.
  - rewrite lookup_total_insert_eq. by destruct (ansiHeap w !!! l).
Qed.

Lemma load_store_ne p q e w : p ≠ q -> load p (store q e w) = load p w.
Proof.
  intros Hne. destruct p as [l|l], q as [l'|l']; unfold load, store; cbn; try done.
  - rewrite lookup_total_insert_ne; [done|congruence].
  - rewrite lookup_total_insert_ne; [done|congruence].
Qed.

Lemma store_store p e e' w : store p e' (store p e w) = store p e' w.
Proof.
  destruct p; unfold store; cbn.
  - by rewrite insert_insert_eq.
  - rewrite lookup_total_insert_eq, insert_insert_eq.
    by destruct (ansiHeap w !!! l).
Qed.

Lemma textPool_store p e w : textPool (store p e w) = textPool w.
Proof. by destruct p. Qed.

Lemma ansiPool_store p e w : ansiPool (store p e w) = ansiPool w.
Proof. by destruct p. Qed.

Lemma sinkLog_store p e w : sinkLog (store p e w) = sinkLog w.
Proof. by destruct p. Qed.

Lemma allocated_store p q e w : allocated p w -> allocated p (store q e w).
Proof.
  destruct p, q; unfold allocated, store; cbn; try done;
    rewrite dom_insert_L; set_solver.
Qed.

Lemma live_store p q e w : live p w -> live p (store q e w).
Proof.
  intros [Ha Hp]. split; [by apply allocated_store|by rewrite textPool_store].
Qed.

(** Colours are not part of what a [*textEncoder] reaches. *)
Lemma colors_store p e w l :
  let a := ansiHeap w !!! l in
  let a' := ansiHeap (store p e w) !!! l in
  debugColor a' = debugColor a /\ infoColor a' = infoColor a /\
  warnColor a' = warnColor a /\ errorColor a' = errorColor a /\
  panicColor a' = panicColor a /\ fatalColor a' = fatalColor a.
Proof.
  destruct p as [l'|l']; unfold store; cbn; [done|].
  destruct (decide (l' = l)) as [->|Hne].
  - by rewrite lookup_total_insert_eq.
  - by rewrite lookup_total_insert_ne.
Qed.

Lemma ansiHeap_store_ne p e w l :
  p ≠ AnsiText l -> ansiHeap (store p e w) !!! l = ansiHeap w !!! l.
Proof.
  destruct p as [l'|l']; unfold store; cbn; [done|].
  intros Hne. rewrite lookup_total_insert_ne; [done|congruence].
Qed.

Lemma grow_grow e x y : grow (grow e x) y = grow e (x ++ y).
Proof. unfold grow; cbn. by rewrite <- app_assoc. Qed.

Lemma load_pushed_eq p x w : load p (pushed p x w) = grow (load p w) x.
Proof. apply load_store_eq. Qed.

Lemma load_pushed_ne p q x w : p ≠ q -> load p (pushed q x w) = load p w.
Proof. apply load_store_ne. Qed.

Lemma pushed_pushed p x y w : pushed p y (pushed p x w) = pushed p (x ++ y) w.
Proof.
  unfold pushed. by rewrite load_store_eq, store_store, grow_grow.
Qed.

Lemma pushed_store p e x w : pushed p x (store p e w) = store p (grow e x) w.
Proof. unfold pushed. by rewrite load_store_eq, store_store. Qed.

Lemma bytes_pushed p x w : bytes (load p (pushed p x w)) = bytes (load p w) ++ x.
Proof. by rewrite load_pushed_eq. Qed.

(** Running the primitive transformers. *)
Lemma bind_run {A B} (m : M A) (k : A -> M B) w a w' :
  m w = (a, w') -> bind m k w = k a w'.
Proof. unfold bind. by intros ->. Qed.

Lemma append_run p x w : append p x w = (tt, pushed p x w).
Proof. reflexivity. Qed.

Lemma append_pushed p x y w : append p y (pushed p x w) = (tt, pushed p (x ++ y) w).
Proof. by rewrite append_run, pushed_pushed. Qed.

Lemma append_store p e x w : append p x (store p e w) = (tt, store p (grow e x) w).
Proof. by rewrite append_run, pushed_store. Qed.

Lemma get_run {A} p (f : textEncoder -> A) w : get p f w = (f (load p w), w).
Proof. reflexivity. Qed.

Lemma setBytes_extend p x w :
  setBytes p (bytes (load p w) ++ x) w = (tt, pushed p x w).
Proof. reflexivity. Qed.

Lemma truncate_run p w :
  truncate p w = (tt, store p (mkText [] (timeFmt (load p w)) (noName (load p w))) w).
Proof. reflexivity. Qed.

(** Rewriting a sequence of steps one at a time. *)
Ltac step :=
  unfold bind at 1;
  rewrite ?append_pushed, ?append_store, ?get_run;
  cbv beta iota.

Ltac run_with tac :=
  unfold bind, ret;
  repeat (first [ tac | rewrite append_pushed | rewrite append_store
                | rewrite get_run | rewrite append_run ];
          cbv beta iota).

Ltac run := run_with fail.

Ltac case_if :=
  match goal with
  | |- context [if ?c then _ else _] => destruct c eqn:?
  end.

(** ** text_encoder.go: the [Add] methods *)

Lemma last_index (b : list byte) : b !! Z.to_nat (len b - 1) = last b.
Proof.
  rewrite last_lookup. f_equal. unfold len. lia.
Qed.

Lemma separator_cases (b : list byte) :
  (separator b = [" "%byte] /\ b <> [] /\ last b <> Some "{"%byte) \/
  (separator b = [] /\ (b = [] \/ last b = Some "{"%byte)).
Proof.
  unfold separator. destruct (last b) as [c|] eqn:Hl.
  - destruct (Byte.eqb c "{") eqn:Hc.
    + right. apply Byte.byte_dec_bl in Hc. subst. auto.
    + left. split; [done|]. split.
      * intros ->. discriminate.
      * intros [= ->]. discriminate.
  - right. split; [done|]. left. by apply last_None.
Qed.

Lemma separator_snoc (b : list byte) (c : byte) :
  separator (b ++ [c]) = if Byte.eqb c "{" then [] else [" "%byte].
Proof. unfold separator. by rewrite last_snoc. Qed.

Lemma addKey_run enc key w :
  addKey enc key w =
  (tt, pushed enc (separator (bytes (load enc w)) ++ bs key ++ bs "=") w).
Proof.
  unfold addKey. step.
  set (b := bytes (load enc w)).
  rewrite last_index. unfold separator.
  destruct (last b) as [c|] eqn:Hl.
  - assert ((0 <=? len b - 1) = true) as ->.
    { apply Z.leb_le. destruct b; [discriminate|]. unfold len. cbn. lia. }
    change (default "000"%byte (Some c)) with c.
    cbn [andb]. destruct (Byte.eqb c "{"); cbn [negb].
    + unfold bind, ret. rewrite append_run. by rewrite append_pushed.
    + unfold bind. rewrite append_run, append_pushed, append_pushed.
      by rewrite <- !app_assoc.
  - apply last_None in Hl. rewrite Hl.
    change (0 <=? len [] - 1) with false. cbn [andb].
    unfold bind, ret. rewrite append_run. by rewrite append_pushed.
Qed.

(** After the key, the remaining steps of a method append to the same
    encoder. *)
Lemma addKey_then {A} enc key (k : M A) w :
  (addKey enc key ;; k) w =
  k (pushed enc (separator (bytes (load enc w)) ++ bs key ++ bs "=") w).
Proof. unfold bind. by rewrite addKey_run. Qed.

Section AddRuns.
Context `{FloatLib} `{FmtLib}.

Lemma addFloat_run enc key val bitSize w :
  addFloat enc key val bitSize w =
  (tt, pushed enc (separator (bytes (load enc w)) ++ bs key ++ bs "="
                   ++ floatText val bitSize) w).
Proof.
  unfold addFloat, floatText. rewrite addKey_then.
  repeat case_match; rewrite append_pushed; by rewrite <- !app_assoc.
Qed.

(** Every method other than [AddMarshaler] appends the separator the
    buffer calls for, the key, [=] and the text of the value, and touches
    nothing else. *)
Lemma AddSimple_run (f : SimpleField) enc w :
  AddSimple f enc w =
  (tt, pushed enc (separator (bytes (load enc w)) ++ bs (simpleKey f) ++ bs "="
                   ++ valueText f) w).
Proof.
  destruct f; cbn [AddSimple simpleKey valueText];
    unfold AddString, AddBool, AddByte, AddBytes, AddInt, AddInt64, AddUint,
      AddUint64, AddFloat32, AddFloat64, AddObject, AddString;
    try apply addFloat_run.
  - run_with ltac:(rewrite addKey_run). by rewrite <- !app_assoc.
  - run_with ltac:(rewrite addKey_run).
    destruct val; cbv beta iota; rewrite append_pushed; by rewrite <- !app_assoc.
  - run_with ltac:(rewrite addKey_run).
    unfold Hex.digits. by rewrite <- !app_assoc.
  - run_with ltac:(rewrite addKey_run).
    rewrite hexEncode_app, setBytes_extend, pushed_pushed.
    by rewrite <- !app_assoc.
  - run_with ltac:(rewrite addKey_run). by rewrite <- !app_assoc.
  - run_with ltac:(rewrite addKey_run). by rewrite <- !app_assoc.
  - run_with ltac:(rewrite addKey_run). by rewrite <- !app_assoc.
  - run_with ltac:(rewrite addKey_run). by rewrite <- !app_assoc.
  - run_with ltac:(rewrite addKey_run). by rewrite <- !app_assoc.
Qed.

End AddRuns.

(** ** text_encoder.go: [AddMarshaler] *)

Lemma depth_app (x y : list byte) : depth (x ++ y) = depth x + depth y.
Proof.
  unfold depth. induction x as [|c x IH]; cbn; [done|].
  rewrite IH. apply Z.add_assoc.
Qed.

Lemma AddMarshaler_run enc key (obj : LogMarshaler) w :
  let w0 := pushed enc (separator (bytes (load enc w)) ++ bs key ++ bs "=" ++ bs "{") w in
  AddMarshaler enc key obj w = (fst (obj enc w0), pushed enc (bs "}") (snd (obj enc w0))).
Proof.
  cbv zeta. unfold AddMarshaler. run_with ltac:(rewrite addKey_run).
  rewrite <- !app_assoc.
  change (["{"%byte]) with (bs "{").
  destruct (obj enc _) as [err w1]. by rewrite append_run.
Qed.

Section Marshal.
Context `{FloatLib} `{FmtLib}.

(** A marshaler body only appends to the encoder it is given; what it
    appends and what it returns depend on the buffer alone. *)
Lemma MarshalLog_pushed (p : Prog) enc pre w :
  let b := bytes (load enc w) ++ pre in
  MarshalLog p enc (pushed enc pre w) =
  (snd (progOut p b), pushed enc (pre ++ fst (progOut p b)) w).
Proof.
  cbv zeta. revert pre. induction p as [err|f k IH|key obj IHobj k IHk]; intros pre.
  - cbn. by rewrite app_nil_r.
  - cbn [MarshalLog progOut]. unfold bind. rewrite AddSimple_run.
    rewrite pushed_pushed, bytes_pushed, IH. cbn [fst snd].
    by rewrite <- !app_assoc.
  - cbn [MarshalLog progOut]. unfold bind.
    rewrite AddMarshaler_run. cbv zeta.
    rewrite pushed_pushed, bytes_pushed, IHobj. cbn [fst snd].
    rewrite pushed_pushed, IHk. cbn [fst snd].
    f_equal; [by rewrite <- !app_assoc|]. f_equal. by rewrite <- !app_assoc.
Qed.

Lemma AddMarshaler_Prog_run enc key (obj : Prog) w :
  let b := bytes (load enc w) in
  let head := separator b ++ bs key ++ bs "=" ++ bs "{" in
  let out := progOut obj (b ++ head) in
  AddMarshaler enc key (MarshalLog obj) w =
  (snd out, pushed enc (head ++ fst out ++ bs "}") w).
Proof.
  cbv zeta. rewrite AddMarshaler_run. cbv zeta.
  rewrite MarshalLog_pushed. cbn [fst snd].
  by rewrite pushed_pushed, <- !app_assoc.
Qed.

(** C8. [AddMarshaler] writes the key under the separator rule and an
    opening brace, runs the object on this same encoder, appends a closing
    brace to whatever buffer the object left, and returns the object's
    error, whichever it is.  For an object that uses the encoder through
    its [Add] methods the buffer afterwards is the old buffer, the key,
    [{], all the object wrote and [}]: nothing is taken back, and the two
    braces leave the nesting depth of the object's output unchanged. *)
Theorem AddMarshaler_wraps :
  (forall enc key (obj : LogMarshaler) w,
     let b := bytes (load enc w) in
     let w0 := pushed enc (separator b ++ bs key ++ bs "=" ++ bs "{") w in
     fst (AddMarshaler enc key obj w) = fst (obj enc w0) /\
     bytes (load enc (snd (AddMarshaler enc key obj w))) =
       bytes (load enc (snd (obj enc w0))) ++ bs "}") /\
  (forall enc key (obj : Prog) w,
     let b := bytes (load enc w) in
     let head := separator b ++ bs key ++ bs "=" in
     let out := progOut obj (b ++ head ++ bs "{") in
     fst (AddMarshaler enc key (MarshalLog obj) w) = snd out /\
     bytes (load enc (snd (AddMarshaler enc key (MarshalLog obj) w))) =
       b ++ head ++ bs "{" ++ fst out ++ bs "}" /\
     depth (head ++ bs "{" ++ fst out ++ bs "}") = depth head + depth (fst out)).
Proof.
  split.
  - intros enc key obj w. cbv zeta. rewrite AddMarshaler_run. cbv zeta. cbn [fst snd].
    split; [done|]. by rewrite bytes_pushed.
  - intros enc key obj w. cbv zeta.
    pose proof (AddMarshaler_Prog_run enc key obj w) as Hrun. cbv zeta in Hrun.
    rewrite <- !app_assoc in Hrun. rewrite <- !app_assoc. rewrite Hrun. cbn [fst snd].
    split; [done|]. split.
    + by rewrite bytes_pushed.
    + rewrite !depth_app. change (depth (bs "{")) with 1.
      change (depth (bs "}")) with (-1). lia.
Qed.

(** Balanced output.  If the keys and the value texts an object writes
    are balanced, so is everything [AddMarshaler] appends for it. *)
Lemma scan_app d (x y : list byte) :
  scan d (x ++ y) = match scan d x with Some d' => scan d' y | None => None end.
Proof.
  revert d. induction x as [|c x IH]; intros d; cbn [app scan]; [done|].
  case_if; [done|apply IH].
Qed.

Lemma scan_shift d d' k (x : list byte) :
  0 <= d -> 0 <= k -> scan d x = Some d' -> scan (d + k) x = Some (d' + k).
Proof.
  revert d. induction x as [|c x IH]; intros d Hd Hk; cbn [scan].
  - by intros [= ->].
  - set (s := if Byte.eqb c "{" then 1 else if Byte.eqb c "}" then -1 else 0).
    destruct (Z.ltb_spec (d + s) 0) as [|Hge]; [done|].
    intros Hx. destruct (Z.ltb_spec (d + k + s) 0) as [|_]; [lia|].
    replace (d + k + s) with (d + s + k) by lia. by apply IH.
Qed.

Lemma balanced_app (x y : list byte) : balanced x -> balanced y -> balanced (x ++ y).
Proof. unfold balanced. intros Hx Hy. by rewrite scan_app, Hx. Qed.

Lemma balanced_wrap (x : list byte) : balanced x -> balanced (bs "{" ++ x ++ bs "}").
Proof.
  unfold balanced. intros Hx.
  change (scan 0 (bs "{" ++ x ++ bs "}")) with (scan 1 (x ++ bs "}")).
  rewrite scan_app.
  assert (scan 1 x = Some 1) as -> by (by apply (scan_shift 0 0 1 x)).
  reflexivity.
Qed.

Lemma balanced_separator (b : list byte) : balanced (separator b).
Proof. by destruct (separator_cases b) as [[-> _]|[-> _]]. Qed.

Lemma progOut_balanced (p : Prog) (b : list byte) :
  wellBraced p -> balanced (fst (progOut p b)).
Proof.
  revert b. induction p as [err|f k IH|key obj IHobj k IHk]; intros b; cbn [wellBraced progOut fst].
  - done.
  - intros (Hkey & Hval & Hk).
    repeat apply balanced_app; auto using balanced_separator; done.
  - intros (Hkey & Hobj & Hk).
    apply balanced_app; [|by apply IHk].
    rewrite <- !app_assoc.
    apply balanced_app; [apply balanced_separator|].
    apply balanced_app; [done|]. apply balanced_app; [done|].
    apply balanced_wrap. by apply IHobj.
Qed.

(** X20. If the key and everything an object writes through the [Add]
    methods have matching braces, so has all that [AddMarshaler] appends,
    whatever error the object returns. *)
Lemma AddMarshaler_balanced enc key (obj : Prog) w :
  balanced (bs key) -> wellBraced obj ->
  let b := bytes (load enc w) in
  exists appended,
    bytes (load enc (snd (AddMarshaler enc key (MarshalLog obj) w))) = b ++ appended /\
    balanced appended.
Proof.
  intros Hkey Hobj. cbv zeta.
  pose proof (AddMarshaler_Prog_run enc key obj w) as Hrun. cbv zeta in Hrun.
  rewrite Hrun. cbn [snd]. rewrite bytes_pushed. eexists. split; [done|].
  rewrite <- !app_assoc.
  apply balanced_app; [apply balanced_separator|].
  apply balanced_app; [done|]. apply balanced_app; [done|].
  apply balanced_wrap. by apply progOut_balanced.
Qed.

(** ** text_encoder.go: the separator rule *)

Lemma Add_run (f : Field) enc w :
  exists tail,
    snd (Add f enc w) =
    pushed enc (separator (bytes (load enc w)) ++ bs (fieldKey f) ++ bs "=" ++ tail) w.
Proof.
  destruct f as [f|key obj]; cbn [Add fieldKey].
  - exists (valueText f). unfold bind. by rewrite AddSimple_run.
  - pose proof (AddMarshaler_Prog_run enc key obj w) as Hrun. cbv zeta in Hrun.
    rewrite Hrun. cbn [snd]. eexists. by rewrite <- !app_assoc.
Qed.

(** C2. Every [Add<Type>(k, v)] extends the buffer by a separator, [k=]
    and the value's text, where the separator is one space exactly when
    the buffer was non-empty and did not end in an opening brace, and is
    absent otherwise (so the first field has none); the separator is never
    the last thing written, as [k=] follows it. *)
Theorem Add_separator (f : Field) enc w :
  let b := bytes (load enc w) in
  exists sep tail,
    bytes (load enc (snd (Add f enc w)))
      = b ++ sep ++ bs (fieldKey f) ++ bs "=" ++ tail /\
    (sep = [" "%byte] <-> (b <> [] /\ last b <> Some "{"%byte)) /\
    (sep = [] <-> (b = [] \/ last b = Some "{"%byte)) /\
    (sep = [" "%byte] \/ sep = []) /\
    bs (fieldKey f) ++ bs "=" ++ tail <> [].
Proof.
  cbv zeta. destruct (Add_run f enc w) as [tail Hrun].
  exists (separator (bytes (load enc w))), tail.
  rewrite Hrun, bytes_pushed. split; [done|].
  assert (bs (fieldKey f) ++ bs "=" ++ tail <> []) as Hlast.
  { destruct (bs (fieldKey f)); discriminate. }
  destruct (separator_cases (bytes (load enc w))) as [(-> & Hne & Hl)|(-> & Hor)].
  - split; [tauto|]. split; [|auto].
    split; [discriminate|]. intros [Hb|Hb]; contradiction.
  - split; [|split; [tauto|auto]].
    split; [discriminate|]. intros [Hne Hl]. destruct Hor; contradiction.
Qed.

End Marshal.

(** ** text_encoder.go: [AddString] *)

Lemma AddString_run enc key val w :
  AddString enc key val w =
  (tt, pushed enc (separator (bytes (load enc w)) ++ bs key ++ bs "=" ++ bs val) w).
Proof.
  unfold AddString. run_with ltac:(rewrite addKey_run). by rewrite <- !app_assoc.
Qed.

Lemma separator_after (b x y : list byte) (c : byte) :
  last y = Some c ->
  separator (b ++ x ++ y) = if Byte.eqb c "{" then [] else [" "%byte].
Proof. intros Hy. unfold separator. by rewrite !last_app, Hy. Qed.

(** C10. [AddString] copies key and value byte for byte: the buffer grows
    by the separator the rule asks for, the key, [=] and the value, and no
    other encoder changes.  Nothing is quoted or escaped, so one field
    whose value is [1 b=2] leaves the same buffer as the two fields [a=1]
    and [b=2], and after a value ending in [{] the next field is written
    without a separator. *)
Theorem AddString_verbatim :
  (forall enc key val w,
     let b := bytes (load enc w) in
     let w' := snd (AddString enc key val w) in
     bytes (load enc w') = b ++ separator b ++ bs key ++ bs "=" ++ bs val /\
     (separator b = [" "%byte] \/ separator b = []) /\
     forall q, q <> enc -> load q w' = load q w) /\
  (forall enc w,
     snd (AddString enc "a" "1 b=2" w) =
     snd ((AddString enc "a" "1" ;; AddString enc "b" "2") w)) /\
  (forall enc w,
     let b := bytes (load enc w) in
     bytes (load enc (snd ((AddString enc "k" "{" ;; AddString enc "b" "2") w)))
     = b ++ separator b ++ bs "k={b=2").
Proof.
  split; [|split].
  - intros enc key val w. cbv zeta. rewrite AddString_run. cbn [snd].
    split; [by rewrite bytes_pushed|]. split.
    + destruct (separator_cases (bytes (load enc w))) as [[-> _]|[-> _]]; auto.
    + intros q Hq. by apply load_pushed_ne.
  - intros enc w. unfold bind. rewrite !AddString_run. cbn [snd].
    rewrite pushed_pushed, bytes_pushed. f_equal.
    rewrite (separator_after _ _ _ "1"%byte) by reflexivity.
    rewrite <- !app_assoc. reflexivity.
  - intros enc w. cbv zeta. unfold bind. rewrite !AddString_run. cbn [snd].
    rewrite pushed_pushed, !bytes_pushed.
    rewrite (separator_after _ _ _ "{"%byte) by reflexivity.
    rewrite <- !app_assoc. reflexivity.
Qed.

(** ** The pool *)

Lemma load_written p final line w : load p (written final line w) = load p w.
Proof. by destruct p. Qed.

Lemma textPool_Get_spec pick w :
  let final := fst (textPool_Get pick w) in
  let w1 := snd (textPool_Get pick w) in
  sinkLog w1 = sinkLog w /\
  ansiHeap w1 = ansiHeap w /\
  (forall p, allocated p w -> load p w1 = load p w) /\
  (forall p, live p w -> p <> final /\ live p w1).
Proof.
  assert (forall w,
    let final := fst (textPool_New w) in
    let w1 := snd (textPool_New w) in
    sinkLog w1 = sinkLog w /\ ansiHeap w1 = ansiHeap w /\
    (forall p, allocated p w -> load p w1 = load p w) /\
    (forall p, live p w -> p <> final /\ live p w1)) as Hnew.
  { clear. intros w. cbn. split; [done|]. split; [done|].
    pose proof (is_fresh (dom (textHeap w))) as Hfresh.
    assert (forall p, allocated p w -> p <> TextPtr (fresh (dom (textHeap w)))) as Hne.
    { intros [l|l] Ha [= ->]. by apply Hfresh. }
    split.
    - intros [l|l] Ha; unfold load; cbn; [|done].
      rewrite lookup_total_insert_ne; [done|]. intros Heq. by apply (Hne (TextPtr l)); subst.
    - intros p [Ha Hp]. split; [by apply Hne|]. split; [|done].
      destruct p as [l|l]; unfold allocated in *; cbn; [|done].
      rewrite dom_insert_L. set_solver. }
  destruct pick as [i|]; [|apply Hnew].
  unfold textPool_Get. destruct (textPool w !! i) as [p|] eqn:Hi; [|apply Hnew].
  cbn. split; [done|]. split; [done|]. split; [done|].
  intros q [Ha Hq]. split.
  - intros ->. apply Hq. by eapply list_elem_of_lookup_2.
  - split; [done|]. cbn. intros Hin. apply Hq. by eapply list_elem_of_delete_inv.
Qed.

(** ** Writing to the sink *)

Lemma writeOutcome_cases (r : Z * error) (expected : Z) :
  (forall e, snd r = Some e -> writeOutcome r expected = Some e) /\
  (snd r = None -> fst r <> expected ->
   writeOutcome r expected = Some (errIncompleteWrite (fst r) expected)) /\
  (snd r = None -> fst r = expected -> writeOutcome r expected = None).
Proof.
  unfold writeOutcome. destruct r as [n [e|]]; cbn.
  - split; [by intros ? [= ->]|]. split; discriminate.
  - split; [discriminate|]. split; intros _ Hn.
    + by apply Z.eqb_neq in Hn as ->.
    + by apply Z.eqb_eq in Hn as ->.
Qed.

Lemma writeOutcome_fails_iff (r : Z * error) (expected : Z) :
  writeOutcome r expected <> None <-> (snd r <> None \/ (snd r = None /\ fst r <> expected)).
Proof.
  unfold writeOutcome. destruct r as [n [e|]]; cbn [fst snd].
  - split; [by left|done].
  - destruct (Z.eqb_spec n expected) as [Heq|Hne].
    + split; [done|]. intros [?|[_ ?]]; done.
    + split; [by right|done].
Qed.

Lemma writeFinal_run sink final w :
  let line := bytes (load final w) in
  writeFinal sink final w =
  (writeOutcome (Write sink (sinkLog w) line) (len line), written final line w).
Proof.
  cbv zeta. unfold writeFinal, bind, get, sink_Write, Free, textPool_Put, writeOutcome, written, ret.
  cbn [fst snd].
  destruct (Write sink (sinkLog w) (bytes (load final w))) as [n [e|]]; cbn [fst snd]; [done|].
  by destruct (n =? len (bytes (load final w))).
Qed.

Lemma silent_ret {A} (a : A) : silent (ret a).
Proof. by intros w. Qed.

Lemma silent_bind {A B} (m : M A) (k : A -> M B) :
  silent m -> (forall a, silent (k a)) -> silent (bind m k).
Proof.
  intros Hm Hk w. unfold bind. specialize (Hm w).
  destruct (m w) as [a w1]. cbn in Hm. by rewrite Hk.
Qed.

Lemma silent_get {A} p (f : textEncoder -> A) : silent (get p f).
Proof. by intros w. Qed.

Lemma silent_setBytes p b : silent (setBytes p b).
Proof. intros w. apply sinkLog_store. Qed.

Lemma silent_setTimeFmt p f : silent (setTimeFmt p f).
Proof. intros w. apply sinkLog_store. Qed.

Lemma silent_append p b : silent (append p b).
Proof. intros w. apply sinkLog_store. Qed.

Lemma silent_if {A} (c : bool) (m1 m2 : M A) :
  silent m1 -> silent m2 -> silent (if c then m1 else m2).
Proof. by destruct c. Qed.

Lemma silent_getA {A} l (f : ansiEncoder -> A) : silent (Ansi.getA l f).
Proof. by intros w. Qed.

Lemma silent_textPool_Get pick : silent (textPool_Get pick).
Proof. intros w. apply (textPool_Get_spec pick w). Qed.

Create HintDb silent.
#[global] Hint Resolve silent_ret silent_get silent_setBytes silent_setTimeFmt
  silent_append silent_getA silent_textPool_Get : silent.
#[global] Hint Extern 2 (silent (bind _ _)) => apply silent_bind; [|intros ?] : silent.
#[global] Hint Extern 2 (silent (if _ then _ else _)) => apply silent_if : silent.

Lemma silent_truncate p : silent (truncate p).
Proof. unfold truncate. auto with silent. Qed.

Lemma silent_addLevel enc final lvl : silent (addLevel enc final lvl).
Proof. unfold addLevel. auto 20 with silent. Qed.

Lemma silent_addTime `{TimeLib} enc final t : silent (addTime enc final t).
Proof. unfold addTime. auto 20 with silent. Qed.

Lemma silent_addName enc final name : silent (addName enc final name).
Proof. unfold addName. auto 20 with silent. Qed.

Lemma silent_addMessage enc final msg : silent (addMessage enc final msg).
Proof. unfold addMessage. auto with silent. Qed.

Lemma silent_addLevelColor enc final lvl : silent (Ansi.addLevelColor enc final lvl).
Proof. unfold Ansi.addLevelColor. auto 30 with silent. Qed.

Lemma silent_clearLevelColor `{AnsiLib} enc final lvl :
  silent (Ansi.clearLevelColor enc final lvl).
Proof. unfold Ansi.clearLevelColor. auto with silent. Qed.

#[global] Hint Resolve silent_truncate silent_addLevel silent_addTime silent_addName
  silent_addMessage silent_addLevelColor silent_clearLevelColor : silent.

Lemma writesOnce_writeFinal sink final : writesOnce sink (writeFinal sink final).
Proof.
  intros w. exists (bytes (load final w)). by rewrite writeFinal_run.
Qed.

Lemma writesOnce_bind {A} sink (m : M A) (k : A -> M error) :
  silent m -> (forall a, writesOnce sink (k a)) -> writesOnce sink (bind m k).
Proof.
  intros Hm Hk w. unfold bind. specialize (Hm w).
  destruct (m w) as [a w1]. cbn in Hm. rewrite <- Hm. apply Hk.
Qed.

Ltac writes_once :=
  repeat first [ apply writesOnce_writeFinal
               | apply writesOnce_bind; [auto 30 with silent|intros ?] ].

Lemma WriteEntry_writesOnce `{TimeLib} pick enc sink name msg lvl t :
  writesOnce sink (WriteEntry pick enc (Some sink) name msg lvl t).
Proof. unfold WriteEntry. writes_once. Qed.

Lemma Ansi_WriteEntry_writesOnce `{TimeLib} `{AnsiLib} pick enc sink name msg lvl t :
  writesOnce sink (Ansi.WriteEntry pick enc (Some sink) name msg lvl t).
Proof. unfold Ansi.WriteEntry. writes_once. Qed.

(** ** Assembling an entry *)

Lemma addLevel_store enc final lvl e w :
  addLevel enc final lvl (store final e w) = (tt, store final (grow e (levelTag lvl)) w).
Proof.
  unfold addLevel, levelTag. run.
  repeat (case_if; run); rewrite !grow_grow; reflexivity.
Qed.

Section Assemble.
Context `{TimeLib}.

Lemma addTime_store enc final t e w :
  enc <> final ->
  addTime enc final t (store final e w) =
  (tt, store final
         (grow e (if String.eqb (timeFmt (load enc w)) "" then []
                  else bs " " ++ bs (time_Format t (timeFmt (load enc w))))) w).
Proof.
  intros Hne. unfold addTime. run. rewrite !load_store_ne by done.
  case_if.
  - unfold grow. rewrite app_nil_r. by destruct e.
  - run. rewrite !load_store_ne by done. run. by rewrite grow_grow.
Qed.

Lemma addName_store enc final name e w :
  enc <> final ->
  addName enc final name (store final e w) =
  (tt, store final
         (grow e (if String.eqb name "" || noName (load enc w) then []
                  else bs " " ++ bs name)) w).
Proof.
  intros Hne. unfold addName. run. rewrite !load_store_ne by done.
  case_if.
  - unfold grow. rewrite app_nil_r. by destruct e.
  - run. by rewrite grow_grow.
Qed.

Lemma addMessage_store enc final msg e w :
  addMessage enc final msg (store final e w) =
  (tt, store final (grow e (bs " " ++ bs msg)) w).
Proof. unfold addMessage. run. by rewrite grow_grow. Qed.

(** The steps of [WriteEntry] between taking the render buffer and the
    write, for an encoder that is not the render buffer. *)
Lemma assemble_text enc final sink name msg lvl t w :
  enc <> final ->
  let line := textLine (load enc w) name msg lvl t in
  (truncate final ;;
   addLevel enc final lvl ;;
   addTime enc final t ;;
   addName enc final name ;;
   addMessage enc final msg ;;
   do b <- get enc bytes;
   (if 0 <? len b
    then append final [" "%byte] ;;
         do b <- get enc bytes;
         append final b
    else ret tt) ;;
   append final ["010"%byte] ;;
   writeFinal sink final) w =
  (writeOutcome (Write sink (sinkLog w) line) (len line),
   written final line
     (store final (mkText line (timeFmt (load final w)) (noName (load final w))) w)).
Proof.
  intros Hne. cbv zeta. unfold bind at 1. rewrite truncate_run.
  unfold bind at 1. rewrite addLevel_store.
  unfold bind at 1. rewrite addTime_store by done.
  unfold bind at 1. rewrite addName_store by done.
  unfold bind at 1. rewrite addMessage_store.
  rewrite !grow_grow.
  unfold bind at 1. rewrite get_run, load_store_ne by done. cbv beta iota.
  set (msgpart := levelTag lvl ++ _).
  assert (forall e,
    (if 0 <? len (bytes (load enc w))
     then append final [" "%byte];; (do b <- get enc bytes; append final b)
     else ret ()) (store final e w) =
    (tt, store final (grow e (if 0 <? len (bytes (load enc w))
                               then bs " " ++ bytes (load enc w) else [])) w)) as Hfields.
  { intros e. case_if.
    - run. rewrite load_store_ne by done. run. by rewrite grow_grow.
    - unfold ret, grow. rewrite app_nil_r. by destruct e. }
  unfold bind at 1. rewrite Hfields.
  unfold bind at 1. rewrite append_store, !grow_grow.
  rewrite writeFinal_run. cbv zeta.
  rewrite !load_store_eq, sinkLog_store. unfold grow; cbn [bytes timeFmt noName].
  subst msgpart. unfold textLine, entryBody.
  rewrite <- !app_assoc. cbn [app]. reflexivity.
Qed.

End Assemble.

Lemma grow_nil e : grow e [] = e.
Proof. unfold grow. rewrite app_nil_r. by destruct e. Qed.

Lemma getA_store {A} l (f : ansiEncoder -> A) p e w :
  Ansi.getA l f (store p e w) = (f (ansiHeap (store p e w) !!! l), store p e w).
Proof. reflexivity. Qed.

Lemma addLevelColor_store enc final lvl e w :
  Ansi.addLevelColor enc final lvl (store final e w) =
  (tt, store final (grow e (bs (levelColor (ansiHeap w !!! enc) lvl))) w).
Proof.
  destruct (colors_store final e w enc) as (Hd & Hi & Hw & He & Hp & Hf).
  unfold Ansi.addLevelColor, levelColor.
  repeat (case_if; [unfold bind; rewrite getA_store; cbv beta iota;
                    rewrite append_store; congruence|]).
  unfold ret. by rewrite grow_nil.
Qed.

Lemma clearLevelColor_store `{AnsiLib} enc final lvl e w :
  Ansi.clearLevelColor enc final lvl (store final e w) =
  (tt, store final (grow e (if recognized lvl then bs Ansi.resetColor else [])) w).
Proof.
  unfold Ansi.clearLevelColor, recognized. case_if.
  - by rewrite append_store.
  - unfold ret. by rewrite grow_nil.
Qed.

Section AssembleAnsi.
Context `{TimeLib} `{AnsiLib}.

Lemma assemble_ansi enc final sink name msg lvl t w :
  AnsiText enc <> final ->
  let line := ansiLine (ansiHeap w !!! enc) name msg lvl t in
  (truncate final ;;
   Ansi.addLevelColor enc final lvl ;;
   addLevel (AnsiText enc) final lvl ;;
   addTime (AnsiText enc) final t ;;
   addName (AnsiText enc) final name ;;
   addMessage (AnsiText enc) final msg ;;
   do b <- get (AnsiText enc) bytes;
   (if 0 <? len b
    then append final [" "%byte] ;;
         do b <- get (AnsiText enc) bytes;
         append final b
    else ret tt) ;;
   Ansi.clearLevelColor enc final lvl ;;
   append final ["010"%byte] ;;
   writeFinal sink final) w =
  (writeOutcome (Write sink (sinkLog w) line) (len line),
   written final line
     (store final (mkText line (timeFmt (load final w)) (noName (load final w))) w)).
Proof.
  intros Hne. cbv zeta. unfold bind at 1. rewrite truncate_run.
  unfold bind at 1. rewrite addLevelColor_store.
  assert (ansiHeap (store final (mkText [] (timeFmt (load final w)) (noName (load final w))) w)
            !!! enc = ansiHeap w !!! enc) as Hsame.
  { apply ansiHeap_store_ne. congruence. }
  unfold bind at 1. rewrite addLevel_store.
  unfold bind at 1. rewrite addTime_store by done.
  unfold bind at 1. rewrite addName_store by done.
  unfold bind at 1. rewrite addMessage_store.
  rewrite !grow_grow.
  unfold bind at 1. rewrite get_run, load_store_ne by done. cbv beta iota.
  set (msgpart := bs (levelColor _ lvl) ++ _).
  assert (forall e,
    (if 0 <? len (bytes (load (AnsiText enc) w))
     then append final [" "%byte];; (do b <- get (AnsiText enc) bytes; append final b)
     else ret ()) (store final e w) =
    (tt, store final (grow e (if 0 <? len (bytes (load (AnsiText enc) w))
                               then bs " " ++ bytes (load (AnsiText enc) w) else [])) w))
    as Hfields.
  { intros e. case_if.
    - run. rewrite load_store_ne by done. run. by rewrite grow_grow.
    - unfold ret. by rewrite grow_nil. }
  unfold bind at 1. rewrite Hfields.
  unfold bind at 1. rewrite clearLevelColor_store.
  unfold bind at 1. rewrite append_store, !grow_grow.
  rewrite writeFinal_run. cbv zeta.
  rewrite !load_store_eq, sinkLog_store. unfold grow; cbn [bytes timeFmt noName].
  subst msgpart. unfold ansiLine, entryBody.
  change (load (AnsiText enc) w) with (embedded (ansiHeap w !!! enc)).
  rewrite <- !app_assoc. cbn [app]. reflexivity.
Qed.

End AssembleAnsi.

(** ** [WriteEntry] on a live encoder *)

Lemma live_written p final line w :
  live p w -> p <> final -> live p (written final line w).
Proof.
  intros [Ha Hp] Hne. split.
  - by destruct p.
  - cbn. intros Hin. apply elem_of_cons in Hin as [?|?]; done.
Qed.

Section Live.
Context `{TimeLib}.

(** On a live encoder the text [WriteEntry] hands the sink exactly
    [textLine], returns what the sink's answer calls for, and leaves the
    encoder as it was and live. *)
Lemma WriteEntry_live pick enc sink name msg lvl t w :
  live enc w ->
  let r := WriteEntry pick enc (Some sink) name msg lvl t w in
  let line := textLine (load enc w) name msg lvl t in
  fst r = writeOutcome (Write sink (sinkLog w) line) (len line) /\
  sinkLog (snd r) = sinkLog w ++ [line] /\
  load enc (snd r) = load enc w /\
  live enc (snd r).
Proof.
  intros Hlive. cbv zeta.
  pose proof (textPool_Get_spec pick w) as Hspec. cbv zeta in Hspec.
  destruct (textPool_Get pick w) as [final w1] eqn:Hget. cbn [fst snd] in Hspec.
  destruct Hspec as (Hlog & _ & Hload & Hlv).
  destruct (Hlv enc Hlive) as [Hne Hlive1].
  set (line := textLine (load enc w) name msg lvl t).
  assert (WriteEntry pick enc (Some sink) name msg lvl t w =
          (writeOutcome (Write sink (sinkLog w) line) (len line),
           written final line
             (store final (mkText line (timeFmt (load final w1)) (noName (load final w1)))
                    w1))) as ->.
  { unfold WriteEntry. unfold bind at 1. rewrite Hget.
    rewrite assemble_text by done.
    rewrite (Hload enc) by apply Hlive. by rewrite Hlog. }
  cbn [fst snd].
  split; [done|]. split; [unfold written; cbn [sinkLog]; by rewrite sinkLog_store, Hlog|].
  split.
  - rewrite load_written, load_store_ne by done. apply Hload, Hlive.
  - apply live_written; [|done]. by apply live_store.
Qed.

Lemma Ansi_WriteEntry_live `{AnsiLib} pick enc sink name msg lvl t w :
  live (AnsiText enc) w ->
  let r := Ansi.WriteEntry pick enc (Some sink) name msg lvl t w in
  let line := ansiLine (ansiHeap w !!! enc) name msg lvl t in
  fst r = writeOutcome (Write sink (sinkLog w) line) (len line) /\
  sinkLog (snd r) = sinkLog w ++ [line] /\
  ansiHeap (snd r) !!! enc = ansiHeap w !!! enc /\
  live (AnsiText enc) (snd r).
Proof.
  intros Hlive. cbv zeta.
  pose proof (textPool_Get_spec pick w) as Hspec. cbv zeta in Hspec.
  destruct (textPool_Get pick w) as [final w1] eqn:Hget. cbn [fst snd] in Hspec.
  destruct Hspec as (Hlog & Hansi & Hload & Hlv).
  destruct (Hlv _ Hlive) as [Hne Hlive1].
  set (line := ansiLine (ansiHeap w !!! enc) name msg lvl t).
  assert (Ansi.WriteEntry pick enc (Some sink) name msg lvl t w =
          (writeOutcome (Write sink (sinkLog w) line) (len line),
           written final line
             (store final (mkText line (timeFmt (load final w1)) (noName (load final w1)))
                    w1))) as ->.
  { unfold Ansi.WriteEntry. unfold bind at 1. rewrite Hget.
    rewrite assemble_ansi by done. by rewrite Hansi, Hlog. }
  cbn [fst snd].
  split; [done|]. split; [unfold written; cbn [sinkLog]; by rewrite sinkLog_store, Hlog|].
  split.
  - unfold written; cbn [ansiHeap]. rewrite ansiHeap_store_ne by congruence.
    by rewrite Hansi.
  - apply live_written; [|done]. by apply live_store.
Qed.

End Live.

(** ** The claims about [WriteEntry] *)

Lemma writesOnce_spec sink (m : M error) w :
  writesOnce sink m -> writeEntrySpec (Some sink) w (m w).
Proof.
  intros Hm. destruct (Hm w) as (line & Hlog & Hres). exists line.
  split; [done|]. cbv zeta. rewrite Hres.
  destruct (writeOutcome_cases (Write sink (sinkLog w) line) (len line)) as (H1 & H2 & _).
  split; [apply writeOutcome_fails_iff|]. by split.
Qed.

(** C4, as amended. [WriteEntry], on either encoder, fails exactly when
    the sink is nil (it then returns the nil-sink error and leaves the
    world, the sink included, untouched), or the sink's one write returns
    an error (returned unchanged), or the write returns no error but a
    count different from the length of the assembled line (an
    incomplete-write error naming both counts); otherwise it succeeds. *)
Theorem WriteEntry_outcome `{TimeLib} `{AnsiLib} pick enc aenc sink name msg lvl t w :
  writeEntrySpec sink w (WriteEntry pick enc sink name msg lvl t w) /\
  writeEntrySpec sink w (Ansi.WriteEntry pick aenc sink name msg lvl t w).
Proof.
  destruct sink as [wr|].
  - split; apply writesOnce_spec.
    + apply WriteEntry_writesOnce.
    + apply Ansi_WriteEntry_writesOnce.
  - by split.
Qed.

(** C4, as stated, fails: a sink that reports one byte more than it was
    given returns no error and no smaller count, yet [WriteEntry] fails. *)
Lemma WriteEntry_overcount_fails :
  let r := @WriteEntry GoTime.lib None (TextPtr 1) (Some Examples.overcount)
             "svc" "started" InfoLevel Examples.newYear2021 Examples.scenario in
  let ans := Write Examples.overcount [] Examples.plainLine in
  sinkLog (snd r) = [Examples.plainLine] /\
  fst r = Some (errIncompleteWrite 38 37) /\
  ~ (Some Examples.overcount = None \/ snd ans <> None \/
     (snd ans = None /\ fst ans < len Examples.plainLine)).
Proof.
  cbv zeta. split; [by vm_compute|]. split; [by vm_compute|].
  intros [Hnil|[Herr|[_ Hfew]]].
  - discriminate.
  - by apply Herr.
  - vm_compute in Hfew. discriminate.
Qed.

Section Scenarios.
Context `{TimeLib}.


(** C9. [WriteEntry] on a live text encoder leaves that encoder's buffer,
    time format and name suppression as they were, whether it fails or
    not; a second call with the same arguments hands the sink the same
    bytes as the first, and with a nil sink both calls change nothing at
    all.  The same holds for a live ANSI encoder, colours included.  Each
    half needs only its own encoder to be live. *)
Theorem WriteEntry_frame `{AnsiLib} pick1 pick2 sink name msg lvl t :
  (forall enc w,
     live enc w ->
     let r1 := WriteEntry pick1 enc sink name msg lvl t w in
     let r2 := WriteEntry pick2 enc sink name msg lvl t (snd r1) in
     load enc (snd r1) = load enc w /\ load enc (snd r2) = load enc w /\
     match sink with
     | Some _ => exists line, sinkLog (snd r2) = sinkLog w ++ [line; line]
     | None => snd r2 = w
     end) /\
  (forall aenc w,
     live (AnsiText aenc) w ->
     let r1 := Ansi.WriteEntry pick1 aenc sink name msg lvl t w in
     let r2 := Ansi.WriteEntry pick2 aenc sink name msg lvl t (snd r1) in
     ansiHeap (snd r1) !!! aenc = ansiHeap w !!! aenc /\
     ansiHeap (snd r2) !!! aenc = ansiHeap w !!! aenc /\
     match sink with
     | Some _ => exists line, sinkLog (snd r2) = sinkLog w ++ [line; line]
     | None => snd r2 = w
     end).
Proof.
  destruct sink as [wr|]; [|by split]. split.
  - intros enc w Hlive. cbv zeta.
    destruct (WriteEntry_live pick1 enc wr name msg lvl t w Hlive)
      as (_ & Hlog1 & Hload1 & Hlive1).
    destruct (WriteEntry_live pick2 enc wr name msg lvl t _ Hlive1)
      as (_ & Hlog2 & Hload2 & _).
    split; [done|]. split; [congruence|].
    exists (textLine (load enc w) name msg lvl t).
    rewrite Hlog2, Hlog1, Hload1. by rewrite <- app_assoc.
  - intros aenc w Halive. cbv zeta.
    destruct (Ansi_WriteEntry_live pick1 aenc wr name msg lvl t w Halive)
      as (_ & Hlog1 & Hload1 & Hlive1).
    destruct (Ansi_WriteEntry_live pick2 aenc wr name msg lvl t _ Hlive1)
      as (_ & Hlog2 & Hload2 & _).
    split; [done|]. split; [congruence|].
    exists (ansiLine (ansiHeap w !!! aenc) name msg lvl t).
    rewrite Hlog2, Hlog1, Hload1. by rewrite <- app_assoc.
Qed.


End Scenarios.

(** ** [Clone] *)

Lemma setTimeFmt_store p e f w :
  setTimeFmt p f (store p e w) = (tt, store p (mkText (bytes e) f (noName e)) w).
Proof. unfold setTimeFmt. by rewrite load_store_eq, store_store. Qed.

(** What [Clone] copies: on a live encoder it returns the instance the
    pool handed out, which is another instance, with the source's buffer
    and time format; the source is unchanged and still live.  The name
    suppression flag of the clone is the one the pooled instance had. *)
Lemma Clone_copies pick enc w :
  live enc w ->
  let pooled := fst (textPool_Get pick w) in
  let w1 := snd (textPool_Get pick w) in
  let clone := fst (Clone pick enc w) in
  let w' := snd (Clone pick enc w) in
  clone = pooled /\ clone <> enc /\
  load clone w' =
    mkText (bytes (load enc w)) (timeFmt (load enc w)) (noName (load pooled w1)) /\
  load enc w' = load enc w /\
  live enc w'.
Proof.
  intros Hlive. cbv zeta.
  pose proof (textPool_Get_spec pick w) as Hspec. cbv zeta in Hspec.
  assert (Clone pick enc w =
          let pooled := fst (textPool_Get pick w) in
          let w1 := snd (textPool_Get pick w) in
          (pooled, store pooled
                     (mkText (bytes (load enc w1)) (timeFmt (load enc w1))
                             (noName (load pooled w1))) w1)) as Hrun.
  { destruct Hspec as (_ & _ & _ & Hlv). destruct (Hlv enc Hlive) as [Hne _].
    unfold Clone. unfold bind at 1.
    destruct (textPool_Get pick w) as [pooled w1]. cbn [fst snd] in *.
    unfold bind at 1. rewrite truncate_run.
    unfold bind at 1. rewrite get_run, load_store_ne by done. cbv beta iota.
    unfold bind at 1. rewrite append_store.
    unfold bind at 1. rewrite get_run, load_store_ne by done. cbv beta iota.
    unfold bind at 1. by rewrite setTimeFmt_store. }
  rewrite Hrun. cbv zeta. cbn [fst snd].
  destruct Hspec as (_ & _ & Hload & Hlv). destruct (Hlv enc Hlive) as [Hne Hlive1].
  split; [done|]. split; [done|]. rewrite load_store_eq, load_store_ne by done.
  rewrite (Hload enc) by apply Hlive.
  split; [done|]. split; [done|]. by apply live_store.
Qed.

(** Adding a field to one encoder changes no other encoder. *)
Lemma Add_frame `{FloatLib} `{FmtLib} (f : Field) p q w :
  q <> p -> load q (snd (Add f p w)) = load q w.
Proof.
  intros Hne. destruct (Add_run f p w) as [tail ->]. by apply load_pushed_ne.
Qed.

(** C3 fails on the code. [Clone] copies the buffer and the time format
    but not the name-suppression flag.  An encoder made by
    [NewTextEncoder(TextNoName())] that holds [a=1] is cloned into a fresh
    instance: the clone has the same buffer and layout but [noName = false],
    so [WriteEntry] omits the name on the source and prints it on the
    clone. *)
Theorem Clone_drops_noName :
  let enc := fst Examples.unnamed in
  let w := snd Examples.unnamed in
  let clone := fst (Clone None enc w) in
  let w' := snd (Clone None enc w) in
  let entry e :=
    sinkLog (snd (@WriteEntry GoTime.lib None e (Some Examples.buffer)
                    "svc" "started" InfoLevel Examples.newYear2021 w')) in
  load enc w = mkText (bs "a=1") time_RFC3339 true /\
  load enc w' = mkText (bs "a=1") time_RFC3339 true /\
  load clone w' = mkText (bs "a=1") time_RFC3339 false /\
  entry enc = [bs "[I] 2021-01-01T00:00:00Z started a=1" ++ ["010"%byte]] /\
  entry clone = [bs "[I] 2021-01-01T00:00:00Z svc started a=1" ++ ["010"%byte]].
Proof. cbv zeta. repeat split; by vm_compute. Qed.

(** ** Floating-point fields *)

(** The special values are written as the three literals; any other value
    as [strconv.FormatFloat] renders it with format [f], precision [-1] and
    the bit size of the method. *)
Lemma floatText_cases `{FloatLib} (val : float64) (bitSize : Z) :
  (math_IsNaN val = true -> floatText val bitSize = bs "NaN") /\
  (math_IsNaN val = false -> math_IsInf val 1 = true ->
   floatText val bitSize = bs "+Inf") /\
  (math_IsNaN val = false -> math_IsInf val 1 = false -> math_IsInf val (-1) = true ->
   floatText val bitSize = bs "-Inf") /\
  (math_IsNaN val = false -> math_IsInf val 1 = false -> math_IsInf val (-1) = false ->
   floatText val bitSize = bs (strconv_FormatFloat val "f" (-1) bitSize)).
Proof.
  unfold floatText. repeat split; intros; repeat case_if; congruence.
Qed.

(** ** The claims at concrete inputs *)

Ltac live_here :=
  split;
  [ unfold allocated; eapply elem_of_dom_2; reflexivity
  | intros Hin; exact (proj1 (elem_of_nil _) Hin) ].



Lemma WriteEntry_frame_witness :
  (let w := snd Examples.counted in
   let enc := fst Examples.counted in
   let r1 := @WriteEntry GoTime.lib None enc (Some Examples.short)
               "svc" "started" InfoLevel Examples.newYear2021 w in
   let r2 := @WriteEntry GoTime.lib (Some 0%nat) enc (Some Examples.short)
               "svc" "started" InfoLevel Examples.newYear2021 (snd r1) in
   load enc (snd r1) = load enc w /\
   load enc (snd r2) = load enc w /\
   exists line, sinkLog (snd r2) = sinkLog w ++ [line; line]) /\
  (let w := Examples.scenario in
   let r1 := @Ansi.WriteEntry GoTime.lib Examples.ansi None 1%positive
               (Some Examples.short) "svc" "started" InfoLevel
               Examples.newYear2021 w in
   let r2 := @Ansi.WriteEntry GoTime.lib Examples.ansi (Some 0%nat) 1%positive
               (Some Examples.short) "svc" "started" InfoLevel
               Examples.newYear2021 (snd r1) in
   ansiHeap (snd r1) !!! 1%positive = ansiHeap w !!! 1%positive /\
   ansiHeap (snd r2) !!! 1%positive = ansiHeap w !!! 1%positive /\
   exists line, sinkLog (snd r2) = sinkLog w ++ [line; line]).
Proof.
  pose proof (@WriteEntry_frame GoTime.lib Examples.ansi None (Some 0%nat)
                (Some Examples.short) "svc" "started" InfoLevel
                Examples.newYear2021) as [Htext Hansi].
  split.
  - apply (Htext (fst Examples.counted) (snd Examples.counted)). live_here.
  - apply (Hansi 1%positive Examples.scenario). live_here.
Defined.



(** ** Further checks on concrete inputs *)

(** The encoders of the scenario are what the package's constructor and
    [AddInt] produce from an empty store. *)
Lemma scenario_reachable :
  load (fst Examples.fresh0) (snd Examples.fresh0) = mkText [] time_RFC3339 false /\
  load (fst Examples.counted) (snd Examples.counted)
    = mkText (bs "count=3") time_RFC3339 false /\
  live (fst Examples.fresh0) (snd Examples.counted) /\
  live (fst Examples.counted) (snd Examples.counted).
Proof.
  split; [by vm_compute|]. split; [by vm_compute|].
  split; live_here.
Qed.

(** The liveness premise of [WriteEntry_live] cannot be dropped: an encoder
    that was released and is then handed out as the render buffer is
    overwritten by the entry. *)
Lemma WriteEntry_released :
  let enc := fst Examples.counted in
  let w := snd (Free enc (snd Examples.counted)) in
  let w' := snd (@WriteEntry GoTime.lib (Some 0%nat) enc (Some Examples.buffer)
                   "svc" "started" InfoLevel Examples.newYear2021 w) in
  bytes (load enc w) = bs "count=3" /\
  bytes (load enc w') <> bs "count=3".
Proof. cbv zeta. split; [by vm_compute|]. vm_compute. discriminate. Qed.

(** A nested object that fails half way: both its fields and both braces
    are in the buffer, and its error is returned. *)
Lemma AddMarshaler_example `{FloatLib} `{FmtLib} :
  let boom := Some (errorString "boom") in
  let inner := Call (FBool "ok" true) (Return None) in
  let obj := Call (FString "x" "1")
               (CallMarshaler "in" inner (fun _ => Call (FInt "y" 2) (Return boom))) in
  let r := AddMarshaler (TextPtr 1) "k" (MarshalLog obj)
             (Examples.oneText (mkText (bs "a=1") time_RFC3339 false)) in
  fst r = boom /\
  bytes (load (TextPtr 1) (snd r)) = bs "a=1 k={x=1 in={ok=true} y=2}".
Proof. cbv zeta. split; reflexivity. Qed.

(** [AddBytes] writes the rendering of [hexEncode] after the key. *)
Lemma AddBytes_rendering enc key val w :
  let b := bytes (load enc w) in
  bytes (load enc (snd (AddBytes enc key val w)))
  = b ++ separator b ++ bs key ++ bs "=" ++ bs "0x" ++ concat (map Hex.digits val).
Proof.
  cbv zeta. unfold AddBytes. run_with ltac:(rewrite addKey_run).
  rewrite hexEncode_app, setBytes_extend, pushed_pushed. cbn [snd].
  by rewrite bytes_pushed, <- !app_assoc.
Qed.

(** * Further properties of the code *)

(** ** bytes.go *)

(** X1. [hexEncode] loses nothing: two calls that start from destinations
    of the same length and give the same result had the same destination
    and the same source. *)
Theorem hexEncode_injective (d1 d2 s1 s2 : list byte) :
  length d1 = length d2 ->
  Hex.hexEncode d1 s1 = Hex.hexEncode d2 s2 ->
  d1 = d2 /\ s1 = s2.
Proof.
  intros Hlen Heq. rewrite !hexEncode_app in Heq.
  apply app_inj_1 in Heq as [-> Hrest]; [|done]. split; [done|].
  apply app_inv_head in Hrest.
  pose proof (decodePairs_render s1) as H1. rewrite Hrest in H1.
  rewrite decodePairs_render in H1. by injection H1.
Qed.

Lemma hexEncode_injective_witness :
  bs "ab" = bs "ab" /\ [x01; xff]%list = [x01; xff]%list.
Proof.
  apply (hexEncode_injective (bs "ab") (bs "ab") [x01; xff] [x01; xff]); reflexivity.
Defined.

(** X2. The rendering can be produced piecewise: encoding [s1 ++ s2] is
    encoding [s1] and then appending the digits of [s2] without a second
    prefix; the result is [2 + 2 * len(src)] bytes longer than the
    destination, and an empty source yields the bare prefix. *)
Theorem hexEncode_extends (dst s1 s2 : list byte) :
  Hex.hexEncode dst (s1 ++ s2)
    = Hex.hexEncode dst s1 ++ drop 2 (Hex.hexEncode [] s2) /\
  length (Hex.hexEncode dst s1) = (length dst + 2 + 2 * length s1)%nat /\
  Hex.hexEncode dst [] = dst ++ bs "0x".
Proof.
  rewrite !hexEncode_app. split; [|split].
  - rewrite map_app, concat_app. cbn [app drop bs list_byte_of_string].
    by rewrite <- !app_assoc.
  - rewrite !length_app. change (length (bs "0x")) with 2%nat.
    assert (length (concat (map Hex.digits s1)) = (2 * length s1)%nat) as ->; [|lia].
    induction s1 as [|v s IH]; [done|]. cbn [map concat]. rewrite length_app, IH.
    cbn. lia.
  - reflexivity.
Qed.

(** ** text_encoder.go: fields *)

(** X3. [AddByte] writes what [AddBytes] writes for the one-byte slice. *)
Theorem AddByte_as_AddBytes enc key (val : byte) w :
  AddByte enc key val w = AddBytes enc key [val] w.
Proof.
  unfold AddByte, AddBytes. run_with ltac:(rewrite addKey_run).
  rewrite hexEncode_app, setBytes_extend, pushed_pushed.
  cbn [map concat app]. unfold Hex.digits. by rewrite <- !app_assoc.
Qed.

Section Fields.
Context `{FloatLib} `{FmtLib}.

(** X4. An [Add] method only appends to the buffer of its own encoder: the
    old buffer is a prefix of the new one and something is always added;
    the encoder's layout and name flag, every other encoder, the colours,
    both pools and the sinks are as before. *)
Theorem Add_only_appends (f : Field) p w :
  let w' := snd (Add f p w) in
  (exists x, x <> [] /\ bytes (load p w') = bytes (load p w) ++ x) /\
  timeFmt (load p w') = timeFmt (load p w) /\
  noName (load p w') = noName (load p w) /\
  (forall q, q <> p -> load q w' = load q w) /\
  (forall l, debugColor (ansiHeap w' !!! l) = debugColor (ansiHeap w !!! l) /\
             infoColor (ansiHeap w' !!! l) = infoColor (ansiHeap w !!! l) /\
             warnColor (ansiHeap w' !!! l) = warnColor (ansiHeap w !!! l) /\
             errorColor (ansiHeap w' !!! l) = errorColor (ansiHeap w !!! l) /\
             panicColor (ansiHeap w' !!! l) = panicColor (ansiHeap w !!! l) /\
             fatalColor (ansiHeap w' !!! l) = fatalColor (ansiHeap w !!! l)) /\
  textPool w' = textPool w /\ ansiPool w' = ansiPool w /\ sinkLog w' = sinkLog w.
Proof.
  cbv zeta. destruct (Add_run f p w) as [tail ->]. unfold pushed.
  rewrite load_store_eq, textPool_store, ansiPool_store, sinkLog_store.
  split; [|split; [done|split; [done|split; [|split; [|done]]]]].
  - eexists. split; [|reflexivity].
    destruct (separator _), (bs (fieldKey f)); discriminate.
  - intros q Hq. by apply load_store_ne.
  - intros l. apply colors_store.
Qed.

Lemma fieldText_last (f : SimpleField) (c : byte) :
  closed f -> last (fieldText f) = Some c -> Byte.eqb c "{" = false.
Proof.
  unfold closed, fieldText. intros Hf. rewrite !last_app.
  destruct (last (valueText f)) as [c'|] eqn:Hl.
  - intros [= ->]. destruct (Byte.eqb c "{") eqn:Hc; [|done].
    apply Byte.byte_dec_bl in Hc. by subst.
  - cbn. by intros [= <-].
Qed.

Lemma separator_after_field (b x : list byte) (f : SimpleField) :
  closed f -> separator (b ++ x ++ fieldText f) = bs " ".
Proof.
  intros Hf.
  destruct (last (fieldText f)) as [c|] eqn:Hl.
  - rewrite (separator_after _ _ _ c Hl). by rewrite (fieldText_last f c).
  - apply last_None in Hl. unfold fieldText in Hl. by destruct (bs (simpleKey f)).
Qed.

Lemma progOut_progOf (fs : list SimpleField) (err : error) (b : list byte) :
  fs <> [] -> Forall closed fs ->
  progOut (progOf fs err) b = (separator b ++ joinFields fs, err).
Proof.
  revert b. induction fs as [|f fs IH]; intros b Hne Hcl; [done|].
  apply Forall_cons in Hcl as [Hf Hcl].
  cbn [progOf fold_right progOut]. fold (progOf fs err).
  destruct fs as [|g fs].
  - cbn. by rewrite app_nil_r.
  - rewrite IH by done. cbn [fst snd].
    change (bs (simpleKey f) ++ bs "=" ++ valueText f) with (fieldText f).
    rewrite separator_after_field by done.
    cbn [joinFields]. by rewrite <- !app_assoc.
Qed.

(** X5. An object that adds the fields [fs] and returns [err], none of
    whose value texts ends in an opening brace, is written as the key, an
    opening brace, the fields separated by single spaces with none after
    the brace, and a closing brace; [AddMarshaler] returns [err].  An
    object that adds nothing is written as [key={}]. *)
Theorem AddMarshaler_fields enc key (fs : list SimpleField) (err : error) w :
  Forall closed fs ->
  let b := bytes (load enc w) in
  let r := AddMarshaler enc key (MarshalLog (progOf fs err)) w in
  fst r = err /\
  bytes (load enc (snd r))
    = b ++ separator b ++ bs key ++ bs "={" ++ joinFields fs ++ bs "}".
Proof.
  intros Hcl. cbv zeta.
  pose proof (AddMarshaler_Prog_run enc key (progOf fs err) w) as Hrun.
  cbv zeta in Hrun. rewrite Hrun. cbn [fst snd]. rewrite bytes_pushed.
  destruct fs as [|f fs].
  - cbn [progOf fold_right progOut fst snd joinFields]. split; [done|].
    by rewrite <- !app_assoc.
  - rewrite progOut_progOf by done. cbn [fst snd]. split; [done|].
    rewrite (separator_after _ _ _ "{"%byte) by (by rewrite !last_app).
    cbn [app]. by rewrite <- !app_assoc.
Qed.

(** X6. Adding the fields [fs] one after the other, none of whose value
    texts ends in an opening brace, extends the buffer by the separator it
    calls for and the fields joined by single spaces. *)
Theorem Add_sequence enc (fs : list SimpleField) w :
  fs <> [] -> Forall closed fs ->
  let b := bytes (load enc w) in
  let w' := snd (forEach (fun f => AddSimple f enc) fs w) in
  bytes (load enc w') = b ++ separator b ++ joinFields fs.
Proof.
  intros Hne Hcl. cbv zeta.
  assert (forall fs pre f0 w,
    Forall closed fs -> closed f0 ->
    snd (forEach (fun f => AddSimple f enc) fs (pushed enc (pre ++ fieldText f0) w))
    = pushed enc (pre ++ joinFields (f0 :: fs)) w) as Hgen.
  { clear. intros fs. induction fs as [|g fs IH]; intros pre f0 w Hcl Hf0.
    - reflexivity.
    - apply Forall_cons in Hcl as [Hg Hcl].
      cbn [forEach]. unfold bind. rewrite AddSimple_run, pushed_pushed, bytes_pushed.
      rewrite separator_after_field by done.
      change (bs (simpleKey g) ++ bs "=" ++ valueText g) with (fieldText g).
      rewrite (app_assoc (pre ++ fieldText f0)).
      rewrite IH by done. f_equal. cbn [joinFields].
      destruct fs; by rewrite <- !app_assoc. }
  destruct fs as [|f fs]; [done|]. apply Forall_cons in Hcl as [Hf Hcl].
  cbn [forEach]. unfold bind. rewrite AddSimple_run.
  change (bs (simpleKey f) ++ bs "=" ++ valueText f) with (fieldText f).
  rewrite Hgen by done. by rewrite bytes_pushed.
Qed.

(** X7. Both float methods write [NaN] for a NaN, [+Inf] for a positive
    and [-Inf] for a negative infinity that is not a NaN; the bit size (64,
    or 32 after the conversion to [float64]) only matters for the other
    values, which are written as [FormatFloat] renders them with format
    [f] and precision [-1]. *)
Theorem AddFloat_text enc key (val : float64) (v32 : float32) w :
  let b := bytes (load enc w) in
  let out64 := bytes (load enc (snd (AddFloat64 enc key val w))) in
  let out32 := bytes (load enc (snd (AddFloat32 enc key v32 w))) in
  let written (text : string) := b ++ separator b ++ bs key ++ bs "=" ++ bs text in
  (math_IsNaN val = true -> out64 = written "NaN"%string) /\
  (math_IsNaN val = false -> math_IsInf val 1 = true -> out64 = written "+Inf"%string) /\
  (math_IsNaN val = false -> math_IsInf val 1 = false -> math_IsInf val (-1) = true ->
   out64 = written "-Inf"%string) /\
  (math_IsNaN val = false -> math_IsInf val 1 = false -> math_IsInf val (-1) = false ->
   out64 = written (strconv_FormatFloat val "f" (-1) 64)) /\
  (float64_of_float32 v32 = val ->
   (math_IsNaN val = true \/ math_IsInf val 1 = true \/ math_IsInf val (-1) = true ->
    out32 = out64) /\
   (math_IsNaN val = false -> math_IsInf val 1 = false -> math_IsInf val (-1) = false ->
    out32 = written (strconv_FormatFloat val "f" (-1) 32))).
Proof.
  cbv zeta. unfold AddFloat64, AddFloat32. rewrite !addFloat_run. cbn [snd].
  rewrite !bytes_pushed. unfold floatText.
  split. { intros Hn. by rewrite Hn. }
  split. { intros Hn Hp. by rewrite Hn, Hp. }
  split. { intros Hn Hp Hm. by rewrite Hn, Hp, Hm. }
  split. { intros Hn Hp Hm. by rewrite Hn, Hp, Hm. }
  intros <-. split.
  - intros Hsp.
    destruct (math_IsNaN (float64_of_float32 v32)); [done|].
    destruct (math_IsInf (float64_of_float32 v32) 1); [done|].
    destruct (math_IsInf (float64_of_float32 v32) (-1)); [done|].
    destruct Hsp as [?|[?|?]]; discriminate.
  - intros Hn Hp Hm. by rewrite Hn, Hp, Hm.
Qed.

End Fields.

(** ** text_encoder.go: constructor, options and pool *)

Lemma setNoName_store p e v w :
  setNoName p v (store p e w) = (tt, store p (mkText (bytes e) (timeFmt e) v) w).
Proof. unfold setNoName. by rewrite load_store_eq, store_store. Qed.

Lemma options_store (opts : list textOpt) p e w :
  forEach (fun opt => opt p) (map toTextOption opts) (store p e w) =
  (tt, store p (mkText (bytes e) (layoutAfter opts (timeFmt e))
                       (flagAfter opts (noName e))) w).
Proof.
  revert e. induction opts as [|o opts IH]; intros e; cbn [map forEach].
  - unfold ret. by destruct e.
  - unfold bind.
    destruct o; cbn [toTextOption]; unfold TextNoTime, TextTimeFormat, TextNoName;
      rewrite ?setTimeFmt_store, ?setNoName_store; apply IH.
Qed.

Lemma NewTextEncoder_run pick (opts : list textOpt) w :
  let pooled := fst (textPool_Get pick w) in
  let w1 := snd (textPool_Get pick w) in
  NewTextEncoder pick (map toTextOption opts) w =
  (pooled, store pooled (mkText [] (layoutAfter opts time_RFC3339)
                                (flagAfter opts (noName (load pooled w1)))) w1).
Proof.
  cbv zeta. unfold NewTextEncoder. unfold bind at 1.
  destruct (textPool_Get pick w) as [pooled w1]. cbn [fst snd].
  unfold bind at 1. rewrite truncate_run.
  unfold bind at 1. rewrite setTimeFmt_store.
  unfold bind at 1. by rewrite options_store.
Qed.

Lemma flagAfter_true (opts : list textOpt) (flag : bool) :
  flagAfter opts flag = true <-> (OptNoName ∈ opts \/ flag = true).
Proof.
  unfold flagAfter. revert flag. induction opts as [|o opts IH]; intros flag; cbn [fold_left].
  - split; [by right|]. intros [Hin|?]; [by apply elem_of_nil in Hin|done].
  - rewrite IH, elem_of_cons. destruct o; split; intros Hx.
    + destruct Hx as [?|?]; [left; by right|by right].
    + destruct Hx as [[?|?]|?]; [discriminate|by left|by right].
    + destruct Hx as [?|?]; [left; by right|by right].
    + destruct Hx as [[?|?]|?]; [discriminate|by left|by right].
    + left. by left.
    + by right.
Qed.

(** The pool discipline: from a well-formed pool [Get] hands out a live
    encoder and leaves the pool well formed. *)
Lemma textPool_Get_live pick w :
  poolOK w ->
  live (fst (textPool_Get pick w)) (snd (textPool_Get pick w)) /\
  poolOK (snd (textPool_Get pick w)).
Proof.
  intros [Hnd Hal].
  assert (live (fst (textPool_New w)) (snd (textPool_New w)) /\
          poolOK (snd (textPool_New w))) as Hnew.
  { pose proof (is_fresh (dom (textHeap w))) as Hfresh. cbn. split; [split|split].
    - unfold allocated. cbn. rewrite dom_insert_L. set_solver.
    - cbn. intros Hin. apply Hal in Hin. by apply Hfresh.
    - done.
    - cbn. intros p Hin. apply Hal in Hin.
      destruct p as [l|l]; unfold allocated in *; cbn; [|done].
      rewrite dom_insert_L. set_solver. }
  destruct pick as [i|]; [|done]. unfold textPool_Get.
  destruct (textPool w !! i) as [p|] eqn:Hi; [|done]. cbn. split; [split|split].
  - apply Hal. by eapply list_elem_of_lookup_2.
  - cbn. intros Hin. apply list_elem_of_lookup_1 in Hin as [j Hj].
    destruct (decide (j < i)%nat) as [Hlt|Hge].
    + rewrite list_lookup_delete_lt in Hj by done.
      pose proof (NoDup_lookup _ _ _ _ Hnd Hi Hj). lia.
    + rewrite list_lookup_delete_ge in Hj by lia.
      pose proof (NoDup_lookup _ _ _ _ Hnd Hi Hj). lia.
  - cbn. eapply sublist_NoDup; [done|apply sublist_delete].
  - cbn. intros q Hin. apply Hal. by eapply list_elem_of_delete_inv.
Qed.

Lemma poolOK_store p e w : poolOK w -> poolOK (store p e w).
Proof.
  intros [Hnd Hal]. split; rewrite textPool_store; [done|].
  intros q Hq. by apply allocated_store, Hal.
Qed.

(** X8. [NewTextEncoder] with any of the package's options returns the
    instance the pool handed out with an empty buffer, whatever it held
    before; the layout is that of the last time option, RFC 3339 if there
    is none; names are suppressed exactly if [TextNoName] is among the
    options or the instance handed out already suppressed them, as the
    flag is not reset.  No sink is written, and every live encoder is
    another encoder, unchanged and still live. *)
Theorem NewTextEncoder_state pick (opts : list textOpt) w :
  let pooled := fst (textPool_Get pick w) in
  let w1 := snd (textPool_Get pick w) in
  let enc := fst (NewTextEncoder pick (map toTextOption opts) w) in
  let w' := snd (NewTextEncoder pick (map toTextOption opts) w) in
  enc = pooled /\
  bytes (load enc w') = [] /\
  timeFmt (load enc w') = layoutAfter opts time_RFC3339 /\
  (noName (load enc w') = true <->
   (OptNoName ∈ opts \/ noName (load pooled w1) = true)) /\
  sinkLog w' = sinkLog w /\
  (forall p, live p w -> p <> enc /\ load p w' = load p w /\ live p w').
Proof.
  cbv zeta. rewrite NewTextEncoder_run. cbv zeta. cbn [fst snd].
  rewrite load_store_eq, sinkLog_store. cbn [bytes timeFmt noName].
  destruct (textPool_Get_spec pick w) as (Hlog & _ & Hload & Hlv).
  split; [done|]. split; [done|]. split; [done|].
  split; [apply flagAfter_true|]. split; [done|].
  intros p Hp. destruct (Hlv p Hp) as [Hne Hlive1].
  split; [done|]. split; [|by apply live_store].
  rewrite load_store_ne by done. apply Hload, Hp.
Qed.

(** X9. With a well-formed pool (allocated encoders, each at most once)
    the encoder [NewTextEncoder] returns is live, and the pool stays well
    formed; this needs no encoder to exist beforehand.  Releasing a live
    encoder with [Free] keeps the pool well formed and makes [Get] able to
    hand that encoder out again. *)
Theorem pool_discipline pick (opts : list textOpt) w :
  poolOK w ->
  (let r := NewTextEncoder pick (map toTextOption opts) w in
   live (fst r) (snd r) /\ poolOK (snd r)) /\
  (forall enc,
     live enc w ->
     poolOK (snd (Free enc w)) /\
     ~ live enc (snd (Free enc w)) /\
     textPool_Get (Some 0%nat) (snd (Free enc w)) = (enc, w)).
Proof.
  intros Hok. split.
  - cbv zeta. rewrite NewTextEncoder_run. cbv zeta. cbn [fst snd].
    destruct (textPool_Get_live pick w Hok) as [Hlive1 Hok1].
    split; [by apply live_store|by apply poolOK_store].
  - intros enc [Ha Hp]. destruct Hok as [Hnd Hal]. split; [split|split].
    + cbn. by apply NoDup_cons.
    + cbn. intros q Hq. apply elem_of_cons in Hq as [->|Hq]; [|by apply Hal].
      by destruct enc.
    + intros [_ Hnot]. apply Hnot. cbn. by left.
    + by destruct w.
Qed.

(** ** text_encoder.go: [Clone] with other operations *)

Lemma Clone_run pick enc w :
  live enc w ->
  let pooled := fst (textPool_Get pick w) in
  let w1 := snd (textPool_Get pick w) in
  Clone pick enc w =
  (pooled, store pooled (mkText (bytes (load enc w)) (timeFmt (load enc w))
                                (noName (load pooled w1))) w1).
Proof.
  intros Hlive. cbv zeta.
  destruct (textPool_Get_spec pick w) as (_ & _ & Hload & Hlv).
  destruct (Hlv enc Hlive) as [Hne _].
  rewrite <- (Hload enc) by apply Hlive.
  unfold Clone. unfold bind at 1.
  destruct (textPool_Get pick w) as [pooled w1]. cbn [fst snd] in *.
  unfold bind at 1. rewrite truncate_run.
  unfold bind at 1. rewrite get_run, load_store_ne by done. cbv beta iota.
  unfold bind at 1. rewrite append_store.
  unfold bind at 1. rewrite get_run, load_store_ne by done. cbv beta iota.
  unfold bind at 1. by rewrite setTimeFmt_store.
Qed.

(** X10. With a well-formed pool, cloning a live encoder gives another
    live encoder with the same buffer and layout and leaves the source as
    it was; afterwards a field added to either one does not change the
    other. *)
Theorem Clone_independent `{FloatLib} `{FmtLib} pick enc (f : Field) w :
  poolOK w -> live enc w ->
  let clone := fst (Clone pick enc w) in
  let w' := snd (Clone pick enc w) in
  clone <> enc /\ live clone w' /\ live enc w' /\ poolOK w' /\
  bytes (load clone w') = bytes (load enc w) /\
  timeFmt (load clone w') = timeFmt (load enc w) /\
  load enc w' = load enc w /\
  load enc (snd (Add f clone w')) = load enc w' /\
  load clone (snd (Add f enc w')) = load clone w'.
Proof.
  intros Hok Hlive. cbv zeta. rewrite Clone_run by done. cbv zeta. cbn [fst snd].
  destruct (textPool_Get_spec pick w) as (_ & _ & Hload & Hlv).
  destruct (Hlv enc Hlive) as [Hne Hlive1].
  destruct (textPool_Get_live pick w Hok) as [Hlivec Hok1].
  rewrite load_store_eq, load_store_ne by done. cbn [bytes timeFmt].
  split; [done|]. split; [by apply live_store|]. split; [by apply live_store|].
  split; [by apply poolOK_store|]. split; [done|]. split; [done|].
  split; [apply Hload, Hlive|].
  destruct (Add_run f (fst (textPool_Get pick w)) (store (fst (textPool_Get pick w))
    (mkText (bytes (load enc w)) (timeFmt (load enc w))
       (noName (load (fst (textPool_Get pick w)) (snd (textPool_Get pick w)))))
    (snd (textPool_Get pick w)))) as [x1 ->].
  destruct (Add_run f enc (store (fst (textPool_Get pick w))
    (mkText (bytes (load enc w)) (timeFmt (load enc w))
       (noName (load (fst (textPool_Get pick w)) (snd (textPool_Get pick w)))))
    (snd (textPool_Get pick w)))) as [x2 ->].
  split; rewrite load_pushed_ne by done; [by rewrite load_store_ne|by rewrite load_store_eq].
Qed.

(** X11. If the instance the pool hands out has the name flag of the
    source, or the entry has no name, [WriteEntry] on the clone hands the
    sink the bytes it would have been handed by [WriteEntry] on the source
    before cloning. *)
Theorem Clone_then_WriteEntry `{TimeLib} pick pick1 pick2 enc sink name msg lvl t w :
  poolOK w -> live enc w ->
  (name = ""%string \/
   noName (load (fst (textPool_Get pick w)) (snd (textPool_Get pick w)))
     = noName (load enc w)) ->
  let clone := fst (Clone pick enc w) in
  let w' := snd (Clone pick enc w) in
  sinkLog (snd (WriteEntry pick1 clone (Some sink) name msg lvl t w'))
  = sinkLog (snd (WriteEntry pick2 enc (Some sink) name msg lvl t w)).
Proof.
  intros Hok Hlive Hflag. cbv zeta.
  pose proof (Clone_run pick enc w Hlive) as Hrun. cbv zeta in Hrun.
  destruct (textPool_Get_live pick w Hok) as [Hlivec _].
  destruct (textPool_Get_spec pick w) as (Hlog & _).
  rewrite Hrun. cbn [fst snd].
  set (pooled := fst (textPool_Get pick w)) in *.
  set (w1 := snd (textPool_Get pick w)) in *.
  set (e := mkText _ _ _).
  destruct (WriteEntry_live pick1 pooled sink name msg lvl t (store pooled e w1)
              (live_store _ _ _ _ Hlivec)) as (_ & -> & _).
  destruct (WriteEntry_live pick2 enc sink name msg lvl t w Hlive) as (_ & -> & _).
  rewrite sinkLog_store, Hlog, load_store_eq. do 2 f_equal.
  unfold textLine, entryBody. subst e. cbn [bytes timeFmt noName].
  destruct Hflag as [-> | ->]; [|done].
  change (String.eqb "" "") with true. reflexivity.
Qed.

(** ** ansi_encoder.go: constructor and [Clone] *)

Lemma store_AnsiText p l e w :
  p = AnsiText l -> store p e w = storeA l (setEmbedded e (ansiHeap w !!! l)) w.
Proof. by intros ->. Qed.

Lemma storeA_storeA l a a' w : storeA l a' (storeA l a w) = storeA l a' w.
Proof. unfold storeA. cbn. by rewrite insert_insert_eq. Qed.

Lemma heap_storeA_eq l a w : ansiHeap (storeA l a w) !!! l = a.
Proof. unfold storeA. cbn. by rewrite lookup_total_insert_eq. Qed.

Lemma heap_storeA_ne l l' a w : l <> l' -> ansiHeap (storeA l a w) !!! l' = ansiHeap w !!! l'.
Proof. intros Hne. unfold storeA. cbn. by rewrite lookup_total_insert_ne. Qed.

Lemma truncate_storeA l a w :
  truncate (AnsiText l) (storeA l a w) =
  (tt, storeA l (setEmbedded (mkText [] (timeFmt (embedded a)) (noName (embedded a))) a) w).
Proof.
  rewrite truncate_run. unfold load. rewrite heap_storeA_eq.
  rewrite (store_AnsiText _ l) by done. by rewrite heap_storeA_eq, storeA_storeA.
Qed.

Lemma append_storeA l a x w :
  append (AnsiText l) x (storeA l a w) =
  (tt, storeA l (setEmbedded (grow (embedded a) x) a) w).
Proof.
  rewrite append_run. unfold pushed, load. rewrite heap_storeA_eq.
  rewrite (store_AnsiText _ l) by done. by rewrite heap_storeA_eq, storeA_storeA.
Qed.

Lemma setTimeFmt_storeA l a f w :
  setTimeFmt (AnsiText l) f (storeA l a w) =
  (tt, storeA l (setEmbedded (mkText (bytes (embedded a)) f (noName (embedded a))) a) w).
Proof.
  unfold setTimeFmt, load. rewrite heap_storeA_eq.
  rewrite (store_AnsiText _ l) by done. by rewrite heap_storeA_eq, storeA_storeA.
Qed.

Lemma updateA_storeA l f a w :
  Ansi.updateA l f (storeA l a w) = (tt, storeA l (f a) w).
Proof.
  unfold Ansi.updateA. rewrite heap_storeA_eq.
  unfold storeA. cbn. by rewrite insert_insert_eq.
Qed.

Lemma getA_storeA_ne {A} l l' (f : ansiEncoder -> A) a w :
  l <> l' -> Ansi.getA l' f (storeA l a w) = (f (ansiHeap w !!! l'), storeA l a w).
Proof. intros Hne. unfold Ansi.getA. by rewrite heap_storeA_ne. Qed.

Lemma get_storeA_ne {A} l l' (f : textEncoder -> A) a w :
  l <> l' ->
  get (AnsiText l') f (storeA l a w) = (f (embedded (ansiHeap w !!! l')), storeA l a w).
Proof. intros Hne. rewrite get_run. unfold load. by rewrite heap_storeA_ne. Qed.

Lemma ansiPool_Get_spec pick w :
  let c := fst (Ansi.ansiPool_Get pick w) in
  let w1 := snd (Ansi.ansiPool_Get pick w) in
  sinkLog w1 = sinkLog w /\ textHeap w1 = textHeap w /\ textPool w1 = textPool w /\
  forall l, liveA l w -> l <> c /\ ansiHeap w1 !!! l = ansiHeap w !!! l /\ liveA l w1.
Proof.
  assert (forall w,
    let c := fst (Ansi.ansiPool_New w) in
    let w1 := snd (Ansi.ansiPool_New w) in
    sinkLog w1 = sinkLog w /\ textHeap w1 = textHeap w /\ textPool w1 = textPool w /\
    forall l, liveA l w -> l <> c /\ ansiHeap w1 !!! l = ansiHeap w !!! l /\ liveA l w1)
    as Hnew.
  { clear. intros w. cbn. split; [done|]. split; [done|]. split; [done|].
    pose proof (is_fresh (dom (ansiHeap w))) as Hfresh.
    intros l [Ha Hp].
    assert (l <> fresh (dom (ansiHeap w))) as Hne by (by intros ->).
    split; [done|]. split; [by rewrite lookup_total_insert_ne|].
    split; [|done]. cbn. rewrite dom_insert_L. set_solver. }
  destruct pick as [i|]; [|apply Hnew].
  unfold Ansi.ansiPool_Get. destruct (ansiPool w !! i) as [c|] eqn:Hi; [|apply Hnew].
  cbn. split; [done|]. split; [done|]. split; [done|].
  intros l [Ha Hp]. split; [|split; [done|split; [done|]]].
  - intros ->. apply Hp. by eapply list_elem_of_lookup_2.
  - cbn. intros Hin. apply Hp. by eapply list_elem_of_delete_inv.
Qed.

Ltac ansi_step :=
  unfold bind at 1;
  first [ rewrite append_storeA | rewrite setTimeFmt_storeA | rewrite updateA_storeA
        | rewrite getA_storeA_ne by done | rewrite get_storeA_ne by done ];
  cbv beta iota;
  cbn [setEmbedded embedded debugColor infoColor warnColor errorColor panicColor
       fatalColor bytes timeFmt noName grow app].

Lemma Ansi_Clone_run pick enc w :
  liveA enc w ->
  let c := fst (Ansi.ansiPool_Get pick w) in
  let w1 := snd (Ansi.ansiPool_Get pick w) in
  let src := ansiHeap w !!! enc in
  Ansi.Clone pick enc w =
  (c, storeA c (mkAnsi (mkText (bytes (embedded src)) (timeFmt (embedded src))
                               (noName (embedded (ansiHeap w1 !!! c))))
                       (debugColor src) (infoColor src) (warnColor src)
                       (errorColor src) (panicColor src) (fatalColor src)) w1).
Proof.
  intros Hlive. cbv zeta.
  destruct (ansiPool_Get_spec pick w) as (_ & _ & _ & Hlv).
  destruct (Hlv enc Hlive) as (Hne & Hsame & _). rewrite <- Hsame.
  unfold Ansi.Clone. unfold bind at 1.
  destruct (Ansi.ansiPool_Get pick w) as [c w1]. cbn [fst snd] in *.
  assert (c <> enc) as Hne' by congruence.
  unfold bind at 1. rewrite truncate_run, (store_AnsiText _ c) by done.
  unfold Ansi.setDebugColor, Ansi.setInfoColor, Ansi.setWarnColor,
    Ansi.setErrorColor, Ansi.setPanicColor, Ansi.setFatalColor.
  do 16 ansi_step.
  unfold ret. f_equal.
Qed.

(** X12. Cloning a live ANSI encoder gives another encoder with the
    source's buffer, layout and six colours, and leaves the source and the
    sinks as they were; the name flag of the clone is the one the pooled
    instance had. *)
Theorem Ansi_Clone_copies pick enc w :
  liveA enc w ->
  let src := ansiHeap w !!! enc in
  let pooled := ansiHeap (snd (Ansi.ansiPool_Get pick w)) !!! fst (Ansi.ansiPool_Get pick w) in
  let clone := fst (Ansi.Clone pick enc w) in
  let w' := snd (Ansi.Clone pick enc w) in
  clone <> enc /\
  ansiHeap w' !!! clone =
    mkAnsi (mkText (bytes (embedded src)) (timeFmt (embedded src))
                   (noName (embedded pooled)))
           (debugColor src) (infoColor src) (warnColor src)
           (errorColor src) (panicColor src) (fatalColor src) /\
  ansiHeap w' !!! enc = src /\
  sinkLog w' = sinkLog w.
Proof.
  intros Hlive. cbv zeta. rewrite Ansi_Clone_run by done. cbv zeta. cbn [fst snd].
  destruct (ansiPool_Get_spec pick w) as (Hlog & _ & _ & Hlv).
  destruct (Hlv enc Hlive) as (Hne & Hsame & _).
  split; [congruence|]. split; [apply heap_storeA_eq|].
  split; [by rewrite heap_storeA_ne by congruence|done].
Qed.

Lemma setNoName_storeA l a v w :
  setNoName (AnsiText l) v (storeA l a w) =
  (tt, storeA l (setEmbedded (mkText (bytes (embedded a)) (timeFmt (embedded a)) v) a) w).
Proof.
  unfold setNoName, load. rewrite heap_storeA_eq.
  rewrite (store_AnsiText _ l) by done. by rewrite heap_storeA_eq, storeA_storeA.
Qed.

Lemma ansi_options_storeA (opts : list textOpt) l a w :
  forEach (fun opt => opt l)
          (map (fun o => Ansi.AnsiTextOption (toTextOption o)) opts) (storeA l a w) =
  (tt, storeA l (setEmbedded (mkText (bytes (embedded a))
                                      (layoutAfter opts (timeFmt (embedded a)))
                                      (flagAfter opts (noName (embedded a)))) a) w).
Proof.
  revert a. induction opts as [|o opts IH]; intros a; cbn [map forEach].
  - unfold ret. f_equal. f_equal. by destruct a as [[] ? ? ? ? ? ?].
  - unfold bind, Ansi.AnsiTextOption.
    destruct o; cbn [toTextOption]; unfold TextNoTime, TextTimeFormat, TextNoName;
      rewrite ?setTimeFmt_storeA, ?setNoName_storeA; rewrite IH; reflexivity.
Qed.

Section NewAnsi.
Context `{AnsiLib}.

(** X13. [NewANSIEncoder] with text options passed through
    [AnsiTextOption] returns the pooled instance with an empty buffer, the
    layout of the last time option (RFC 3339 if none), the six default
    colours, and names suppressed exactly if [TextNoName] was passed or the
    instance already suppressed them; live ANSI encoders and the sinks are
    unchanged. *)
Theorem NewANSIEncoder_state pick (opts : list textOpt) w :
  let c := fst (Ansi.ansiPool_Get pick w) in
  let w1 := snd (Ansi.ansiPool_Get pick w) in
  let r := Ansi.NewANSIEncoder pick
             (map (fun o => Ansi.AnsiTextOption (toTextOption o)) opts) w in
  fst r = c /\
  ansiHeap (snd r) !!! c =
    mkAnsi (mkText [] (layoutAfter opts time_RFC3339)
                   (flagAfter opts (noName (embedded (ansiHeap w1 !!! c)))))
           Ansi.defaultDebugColor Ansi.defaultInfoColor Ansi.defaultWarnColor
           Ansi.defaultErrorColor Ansi.defaultPanicColor Ansi.defaultFatalColor /\
  sinkLog (snd r) = sinkLog w /\
  (forall l, liveA l w -> l <> c /\ ansiHeap (snd r) !!! l = ansiHeap w !!! l).
Proof.
  cbv zeta.
  destruct (ansiPool_Get_spec pick w) as (Hlog & _ & _ & Hlv).
  assert (Ansi.NewANSIEncoder pick
            (map (fun o => Ansi.AnsiTextOption (toTextOption o)) opts) w =
          let c := fst (Ansi.ansiPool_Get pick w) in
          let w1 := snd (Ansi.ansiPool_Get pick w) in
          (c, storeA c
                (mkAnsi (mkText [] (layoutAfter opts time_RFC3339)
                          (flagAfter opts (noName (embedded (ansiHeap w1 !!! c)))))
                   Ansi.defaultDebugColor Ansi.defaultInfoColor Ansi.defaultWarnColor
                   Ansi.defaultErrorColor Ansi.defaultPanicColor Ansi.defaultFatalColor)
                w1)) as ->.
  { unfold Ansi.NewANSIEncoder. unfold bind at 1.
    destruct (Ansi.ansiPool_Get pick w) as [c w1]. cbn [fst snd].
    unfold bind at 1. rewrite truncate_run, (store_AnsiText _ c) by done.
    unfold Ansi.setDebugColor, Ansi.setInfoColor, Ansi.setWarnColor,
      Ansi.setErrorColor, Ansi.setPanicColor, Ansi.setFatalColor.
    do 7 ansi_step.
    unfold bind at 1. rewrite ansi_options_storeA. reflexivity. }
  cbv zeta. cbn [fst snd].
  split; [done|]. split; [apply heap_storeA_eq|]. split; [done|].
  intros l Hl. destruct (Hlv l Hl) as (Hne & Hsame & _).
  split; [done|]. by rewrite heap_storeA_ne by congruence.
Qed.

End NewAnsi.

(** ** text_encoder.go: entries *)

Lemma FormatInt_parse (z : Z) :
  NilZero.int_of_string (strconv_FormatInt z) = Some (Z.to_int z).
Proof.
  unfold strconv_FormatInt. apply NilZero.isi; destruct z; cbn; try discriminate;
    intros [= Hnil]; by apply Unsigned.to_uint_nonnil in Hnil.
Qed.

Lemma parseLevel_FormatInt (z : Z) :
  recognized z = false -> parseLevel (strconv_FormatInt z) = Some z.
Proof.
  intros Hz. unfold parseLevel.
  assert (forall letter : string,
            NilZero.int_of_string letter = None ->
            String.eqb (strconv_FormatInt z) letter = false) as Hletter.
  { intros letter Hnone. destruct (String.eqb_spec (strconv_FormatInt z) letter) as [Heq|]; [|done].
    pose proof (FormatInt_parse z) as Hp. rewrite Heq, Hnone in Hp. discriminate. }
  rewrite !Hletter by reflexivity.
  by rewrite FormatInt_parse, DecimalZ.of_to.
Qed.

Lemma addLevel_run enc final lvl w :
  addLevel enc final lvl w = (tt, pushed final (levelTag lvl) w).
Proof.
  unfold addLevel, levelTag. run.
  repeat (case_if; run); reflexivity.
Qed.

(** X14. The level can be read back from the tag [addLevel] writes: the
    buffer grows by a bracketed tag whose content is the letter of the
    level, or its decimal value if it is none of the six, and decoding the
    tag gives the level. *)
Theorem addLevel_roundtrip enc final (lvl : Level) w :
  let b := bytes (load final w) in
  let b' := bytes (load final (snd (addLevel enc final lvl w))) in
  b' = b ++ levelTag lvl /\
  parseLevelTag (levelTag lvl) = Some lvl.
Proof.
  cbv zeta. rewrite addLevel_run. cbn [snd]. rewrite bytes_pushed. split; [done|].
  unfold levelTag, parseLevelTag.
  match goal with
  | |- context [bs "[" ++ ?body ++ bs "]"] =>
      change (bs "[" ++ body ++ bs "]") with ("["%byte :: body ++ ["]"%byte])
  end.
  cbv iota. rewrite last_snoc, removelast_last.
  change (Byte.eqb "[" "[" && Byte.eqb "]" "]") with true. cbv iota.
  destruct (Z.eqb_spec lvl DebugLevel) as [->|H1]; [reflexivity|].
  destruct (Z.eqb_spec lvl InfoLevel) as [->|H2]; [reflexivity|].
  destruct (Z.eqb_spec lvl WarnLevel) as [->|H3]; [reflexivity|].
  destruct (Z.eqb_spec lvl ErrorLevel) as [->|H4]; [reflexivity|].
  destruct (Z.eqb_spec lvl PanicLevel) as [->|H5]; [reflexivity|].
  destruct (Z.eqb_spec lvl FatalLevel) as [->|H6]; [reflexivity|].
  unfold bs. rewrite string_of_list_byte_of_string.
  apply parseLevel_FormatInt. unfold recognized.
  apply Z.eqb_neq in H1, H2, H3, H4, H5, H6.
  by rewrite H1, H2, H3, H4, H5, H6.
Qed.

Section Entries.
Context `{TimeLib}.

Lemma WriteEntry_run pick enc sink name msg lvl t w :
  live enc w ->
  let final := fst (textPool_Get pick w) in
  let w1 := snd (textPool_Get pick w) in
  let line := textLine (load enc w) name msg lvl t in
  WriteEntry pick enc (Some sink) name msg lvl t w =
  (writeOutcome (Write sink (sinkLog w) line) (len line),
   written final line
     (store final (mkText line (timeFmt (load final w1)) (noName (load final w1))) w1)).
Proof.
  intros Hlive. cbv zeta.
  destruct (textPool_Get_spec pick w) as (Hlog & _ & Hload & Hlv).
  destruct (Hlv enc Hlive) as [Hne _].
  rewrite <- (Hload enc) by apply Hlive. rewrite <- Hlog.
  unfold WriteEntry. unfold bind at 1.
  destruct (textPool_Get pick w) as [final w1]. cbn [fst snd] in *.
  by rewrite assemble_text.
Qed.

(** X15. [WriteEntry] with a sink returns its render buffer to the pool
    whatever the sink answers: the pool afterwards is the buffer in front
    of the pool as [Get] left it.  With a well-formed pool the pool stays
    well formed, and every encoder that was allocated before, the caller's
    included, is unchanged. *)
Theorem WriteEntry_releases pick enc sink name msg lvl t w :
  poolOK w -> live enc w ->
  let final := fst (textPool_Get pick w) in
  let w1 := snd (textPool_Get pick w) in
  let w' := snd (WriteEntry pick enc (Some sink) name msg lvl t w) in
  textPool w' = final :: textPool w1 /\
  ansiPool w' = ansiPool w1 /\
  poolOK w' /\
  (forall p, allocated p w -> p <> final -> load p w' = load p w).
Proof.
  intros Hok Hlive. cbv zeta. rewrite WriteEntry_run by done. cbv zeta. cbn [snd].
  destruct (textPool_Get_spec pick w) as (_ & _ & Hload & _).
  destruct (textPool_Get_live pick w Hok) as [[Hfa Hfp] [Hnd Hal]].
  unfold written. cbn [textPool ansiPool]. rewrite textPool_store, ansiPool_store.
  split; [done|]. split; [done|]. split; [split|].
  - cbn [textPool]. rewrite ?textPool_store. by apply NoDup_cons.
  - cbn [textPool]. rewrite ?textPool_store. intros q Hq.
    assert (allocated q (snd (textPool_Get pick w))) as Hq1.
    { apply elem_of_cons in Hq as [->|Hq]; [done|by apply Hal]. }
    apply (allocated_store q (fst (textPool_Get pick w))
             (mkText (textLine (load enc w) name msg lvl t)
                (timeFmt (load (fst (textPool_Get pick w)) (snd (textPool_Get pick w))))
                (noName (load (fst (textPool_Get pick w)) (snd (textPool_Get pick w))))))
      in Hq1.
    by destruct q.
  - intros p Hp Hne.
    change (load p (mkWorld ?a ?b ?c ?d ?e)) with (load p (mkWorld a b c d e)).
    rewrite <- (Hload p Hp).
    rewrite <- (load_store_ne p (fst (textPool_Get pick w))
                  (mkText (textLine (load enc w) name msg lvl t)
                     (timeFmt (load (fst (textPool_Get pick w)) (snd (textPool_Get pick w))))
                     (noName (load (fst (textPool_Get pick w)) (snd (textPool_Get pick w)))))
                  (snd (textPool_Get pick w))) by done.
    by destruct p.
Qed.

(** X16. What [WriteEntry] hands the sink and what it returns do not
    depend on which render buffer the pool supplies, nor on what that
    buffer held. *)
Theorem WriteEntry_pool_independent pick1 pick2 enc sink name msg lvl t w :
  live enc w ->
  let r1 := WriteEntry pick1 enc (Some sink) name msg lvl t w in
  let r2 := WriteEntry pick2 enc (Some sink) name msg lvl t w in
  fst r1 = fst r2 /\ sinkLog (snd r1) = sinkLog (snd r2).
Proof.
  intros Hlive. cbv zeta.
  destruct (WriteEntry_live pick1 enc sink name msg lvl t w Hlive) as (-> & -> & _).
  by destruct (WriteEntry_live pick2 enc sink name msg lvl t w Hlive) as (-> & -> & _).
Qed.

(** X17. With names suppressed the entry is the one written for the
    empty name: the name and its separator are left out together. *)
Theorem WriteEntry_name_suppressed pick enc sink name msg lvl t w :
  live enc w -> noName (load enc w) = true ->
  let r := WriteEntry pick enc (Some sink) name msg lvl t w in
  let r0 := WriteEntry pick enc (Some sink) "" msg lvl t w in
  fst r = fst r0 /\ sinkLog (snd r) = sinkLog (snd r0) /\
  sinkLog (snd r) =
    sinkLog w ++
    [levelTag lvl
     ++ (if String.eqb (timeFmt (load enc w)) "" then []
         else bs " " ++ bs (time_Format t (timeFmt (load enc w))))
     ++ bs " " ++ bs msg
     ++ (if 0 <? len (bytes (load enc w)) then bs " " ++ bytes (load enc w) else [])
     ++ ["010"%byte]].
Proof.
  intros Hlive Hno. cbv zeta.
  destruct (WriteEntry_live pick enc sink name msg lvl t w Hlive) as (-> & -> & _).
  destruct (WriteEntry_live pick enc sink "" msg lvl t w Hlive) as (-> & -> & _).
  assert (textLine (load enc w) name msg lvl t = textLine (load enc w) "" msg lvl t) as ->.
  { unfold textLine, entryBody. rewrite Hno. by rewrite !orb_true_r. }
  split; [done|]. split; [done|].
  unfold textLine, entryBody. cbn [String.eqb orb app].
  by rewrite <- !app_assoc.
Qed.

(** X18. With an empty layout ([TextNoTime]) the entry does not depend
    on the timestamp: the time and its separator are left out together. *)
Theorem WriteEntry_no_time pick enc sink name msg lvl t1 t2 w :
  live enc w -> timeFmt (load enc w) = ""%string ->
  let r1 := WriteEntry pick enc (Some sink) name msg lvl t1 w in
  let r2 := WriteEntry pick enc (Some sink) name msg lvl t2 w in
  fst r1 = fst r2 /\ sinkLog (snd r1) = sinkLog (snd r2) /\
  sinkLog (snd r1) =
    sinkLog w ++
    [levelTag lvl
     ++ (if String.eqb name "" || noName (load enc w) then [] else bs " " ++ bs name)
     ++ bs " " ++ bs msg
     ++ (if 0 <? len (bytes (load enc w)) then bs " " ++ bytes (load enc w) else [])
     ++ ["010"%byte]].
Proof.
  intros Hlive Hfmt. cbv zeta.
  destruct (WriteEntry_live pick enc sink name msg lvl t1 w Hlive) as (-> & -> & _).
  destruct (WriteEntry_live pick enc sink name msg lvl t2 w Hlive) as (-> & -> & _).
  unfold textLine, entryBody. rewrite Hfmt. cbn [String.eqb app].
  split; [done|]. split; [done|]. by rewrite <- !app_assoc.
Qed.

End Entries.

(** X19. A field added to a live encoder shows in every later entry:
    the entry is the level tag, time, name and message, one space, the
    old buffer, the separator it called for, and the new field. *)
Theorem Add_then_WriteEntry `{TimeLib} `{FloatLib} `{FmtLib}
    pick enc (f : SimpleField) sink name msg lvl t w :
  live enc w ->
  let e := load enc w in
  let w1 := snd (AddSimple f enc w) in
  sinkLog (snd (WriteEntry pick enc (Some sink) name msg lvl t w1)) =
  sinkLog w ++
  [entryBody (mkText [] (timeFmt e) (noName e)) name msg lvl t
   ++ bs " " ++ bytes e ++ separator (bytes e) ++ fieldText f ++ ["010"%byte]].
Proof.
  intros Hlive. cbv zeta. rewrite AddSimple_run. cbn [snd].
  assert (live enc (pushed enc (separator (bytes (load enc w)) ++ bs (simpleKey f)
                                  ++ bs "=" ++ valueText f) w)) as Hlive1
    by (by apply live_store).
  destruct (WriteEntry_live pick enc sink name msg lvl t _ Hlive1) as (_ & -> & _).
  unfold pushed at 1. rewrite sinkLog_store, load_pushed_eq. do 2 f_equal.
  unfold textLine, entryBody, grow, fieldText. cbn [bytes timeFmt noName].
  assert ((0 <? len (bytes (load enc w) ++ separator (bytes (load enc w))
                     ++ bs (simpleKey f) ++ bs "=" ++ valueText f)) = true) as ->.
  { apply Z.ltb_lt. unfold len. rewrite !length_app.
    change (length (bs "=")) with 1%nat. lia. }
  change (0 <? len []) with false. cbv iota.
  rewrite <- !app_assoc. reflexivity.
Qed.

(** ** The further properties at concrete inputs *)

Ltac pool_here :=
  split; [apply NoDup_nil_2 | intros ? Hin; exact (False_ind _ (proj1 (elem_of_nil _) Hin))].

Lemma AddFloat_text_witness :
  let out (v : Examples.special) :=
    bytes (load (TextPtr 2)
             (snd (@AddFloat64 Examples.floats (TextPtr 2) "f" v Examples.scenario))) in
  let out32 (v : Examples.special) :=
    bytes (load (TextPtr 2)
             (snd (@AddFloat32 Examples.floats (TextPtr 2) "f" v Examples.scenario))) in
  out Examples.NaN = bs "count=3 f=NaN" /\
  out Examples.PosInf = bs "count=3 f=+Inf" /\
  out Examples.NegInf = bs "count=3 f=-Inf" /\
  out32 Examples.NegInf = out Examples.NegInf.
Proof.
  cbv zeta.
  pose proof (@AddFloat_text Examples.floats (TextPtr 2) "f" Examples.NaN Examples.NaN
                Examples.scenario) as Hnan.
  pose proof (@AddFloat_text Examples.floats (TextPtr 2) "f" Examples.PosInf Examples.PosInf
                Examples.scenario) as Hpos.
  pose proof (@AddFloat_text Examples.floats (TextPtr 2) "f" Examples.NegInf Examples.NegInf
                Examples.scenario) as Hneg.
  cbv zeta in Hnan, Hpos, Hneg.
  split; [exact (proj1 Hnan eq_refl)|].
  split; [exact (proj1 (proj2 Hpos) eq_refl eq_refl)|].
  split; [exact (proj1 (proj2 (proj2 Hneg)) eq_refl eq_refl eq_refl)|].
  exact (proj1 (proj2 (proj2 (proj2 (proj2 Hneg))) eq_refl) (or_intror (or_intror eq_refl))).
Defined.

Lemma AddMarshaler_fields_witness :
  let fs := [@FString Examples.floats Examples.strings "x" "1";
             @FFloat64 Examples.floats Examples.strings "y" Examples.NaN; @FBool Examples.floats Examples.strings "ok" true] in
  let r := AddMarshaler (TextPtr 2) "k"
             (@MarshalLog Examples.floats Examples.strings
                (progOf fs (Some (errorString "boom")))) Examples.scenario in
  fst r = Some (errorString "boom") /\
  bytes (load (TextPtr 2) (snd r)) = bs "count=3 k={x=1 y=NaN ok=true}".
Proof.
  apply (@AddMarshaler_fields Examples.floats Examples.strings (TextPtr 2) "k"
           [@FString Examples.floats Examples.strings "x" "1"; @FFloat64 Examples.floats Examples.strings "y" Examples.NaN; @FBool Examples.floats Examples.strings "ok" true]
           (Some (errorString "boom")) Examples.scenario).
  repeat constructor; discriminate.
Defined.

Lemma Add_sequence_witness :
  let fs := [@FString Examples.floats Examples.strings "x" "1";
             @FInt Examples.floats Examples.strings "n" (-7); @FBytes Examples.floats Examples.strings "b" [x0a; xff]] in
  bytes (load (TextPtr 1)
           (snd (forEach (fun f => AddSimple f (TextPtr 1)) fs Examples.scenario)))
  = bs "x=1 n=-7 b=0x0AFF".
Proof.
  apply (@Add_sequence Examples.floats Examples.strings (TextPtr 1)
           [@FString Examples.floats Examples.strings "x" "1"; @FInt Examples.floats Examples.strings "n" (-7); @FBytes Examples.floats Examples.strings "b" [x0a; xff]] Examples.scenario).
  - discriminate.
  - repeat constructor; discriminate.
Defined.

Lemma pool_discipline_witness :
  (let r := NewTextEncoder None [TextNoTime; TextNoName] emptyWorld in
   live (fst r) (snd r) /\ poolOK (snd r)) /\
  (poolOK (snd (Free (TextPtr 2) Examples.scenario)) /\
   ~ live (TextPtr 2) (snd (Free (TextPtr 2) Examples.scenario)) /\
   textPool_Get (Some 0%nat) (snd (Free (TextPtr 2) Examples.scenario))
     = (TextPtr 2, Examples.scenario)).
Proof.
  split.
  - apply (pool_discipline None [OptNoTime; OptNoName] emptyWorld). pool_here.
  - assert (poolOK Examples.scenario) as Hok by pool_here.
    apply (proj2 (pool_discipline None [] Examples.scenario Hok) (TextPtr 2)).
    live_here.
Defined.

Lemma Clone_independent_witness :
  let clone := fst (Clone None (TextPtr 2) Examples.scenario) in
  let w' := snd (Clone None (TextPtr 2) Examples.scenario) in
  let f := @Simple Examples.floats Examples.strings (@FBool Examples.floats Examples.strings "b" true) in
  clone <> TextPtr 2 /\ live clone w' /\ live (TextPtr 2) w' /\ poolOK w' /\
  bytes (load clone w') = bytes (load (TextPtr 2) Examples.scenario) /\
  timeFmt (load clone w') = timeFmt (load (TextPtr 2) Examples.scenario) /\
  load (TextPtr 2) w' = load (TextPtr 2) Examples.scenario /\
  load (TextPtr 2) (snd (Add f clone w')) = load (TextPtr 2) w' /\
  load clone (snd (Add f (TextPtr 2) w')) = load clone w'.
Proof.
  apply (@Clone_independent Examples.floats Examples.strings None (TextPtr 2)
           (@Simple Examples.floats Examples.strings (@FBool Examples.floats Examples.strings "b" true)) Examples.scenario).
  - pool_here.
  - live_here.
Defined.

Lemma Clone_then_WriteEntry_witness :
  let clone := fst (Clone None (TextPtr 2) Examples.scenario) in
  let w' := snd (Clone None (TextPtr 2) Examples.scenario) in
  sinkLog (snd (@WriteEntry GoTime.lib None clone (Some Examples.buffer)
                  "svc" "started" InfoLevel Examples.newYear2021 w'))
  = sinkLog (snd (@WriteEntry GoTime.lib None (TextPtr 2) (Some Examples.buffer)
                    "svc" "started" InfoLevel Examples.newYear2021 Examples.scenario)).
Proof.
  apply (@Clone_then_WriteEntry GoTime.lib None None None (TextPtr 2) Examples.buffer
           "svc" "started" InfoLevel Examples.newYear2021 Examples.scenario).
  - pool_here.
  - live_here.
  - right. reflexivity.
Defined.

Lemma Ansi_Clone_copies_witness :
  let clone := fst (Ansi.Clone None 1%positive Examples.scenario) in
  let w' := snd (Ansi.Clone None 1%positive Examples.scenario) in
  clone <> 1%positive /\
  ansiHeap w' !!! clone =
    mkAnsi (mkText (bs "count=3") time_RFC3339 false)
           "" (Examples.esc ++ "[32m") "" "" "" "" /\
  ansiHeap w' !!! 1%positive = ansiHeap Examples.scenario !!! 1%positive /\
  sinkLog w' = sinkLog Examples.scenario.
Proof.
  apply (Ansi_Clone_copies None 1%positive Examples.scenario).
  split; [eapply elem_of_dom_2; reflexivity
         |intros Hin; exact (proj1 (elem_of_nil _) Hin)].
Defined.

Lemma WriteEntry_releases_witness :
  let w' := snd (@WriteEntry GoTime.lib None (TextPtr 2)
                   (Some (Examples.failing errNilSink))
                   "svc" "started" InfoLevel Examples.newYear2021 Examples.scenario) in
  textPool w' = [TextPtr 3] /\ ansiPool w' = [] /\ poolOK w' /\
  (forall p, allocated p Examples.scenario -> p <> TextPtr 3 ->
             load p w' = load p Examples.scenario).
Proof.
  apply (@WriteEntry_releases GoTime.lib None (TextPtr 2)
           (Examples.failing errNilSink) "svc" "started" InfoLevel
           Examples.newYear2021 Examples.scenario).
  - pool_here.
  - live_here.
Defined.

Lemma WriteEntry_pool_independent_witness :
  let w := snd (@WriteEntry GoTime.lib None (TextPtr 1) (Some Examples.buffer)
                  "" "" FatalLevel Examples.newYear2021 Examples.scenario) in
  let r1 := @WriteEntry GoTime.lib None (TextPtr 2) (Some Examples.short)
              "svc" "started" InfoLevel Examples.newYear2021 w in
  let r2 := @WriteEntry GoTime.lib (Some 0%nat) (TextPtr 2) (Some Examples.short)
              "svc" "started" InfoLevel Examples.newYear2021 w in
  fst r1 = fst r2 /\ sinkLog (snd r1) = sinkLog (snd r2).
Proof.
  apply (@WriteEntry_pool_independent GoTime.lib None (Some 0%nat) (TextPtr 2)
           Examples.short "svc" "started" InfoLevel Examples.newYear2021).
  split; [unfold allocated; eapply elem_of_dom_2; reflexivity|].
  vm_compute. intros Hin. inversion Hin as [|? ? ? Hin']; inversion Hin'.
Defined.

Lemma WriteEntry_name_suppressed_witness :
  let enc := fst Examples.unnamed in
  let w := snd Examples.unnamed in
  sinkLog (snd (@WriteEntry GoTime.lib None enc (Some Examples.buffer)
                  "svc" "started" InfoLevel Examples.newYear2021 w))
  = sinkLog (snd (@WriteEntry GoTime.lib None enc (Some Examples.buffer)
                    "" "started" InfoLevel Examples.newYear2021 w)).
Proof.
  apply (@WriteEntry_name_suppressed GoTime.lib None (fst Examples.unnamed)
           Examples.buffer "svc" "started" InfoLevel Examples.newYear2021
           (snd Examples.unnamed)).
  - live_here.
  - reflexivity.
Defined.

Lemma WriteEntry_no_time_witness :
  let r := NewTextEncoder None [TextNoTime] emptyWorld in
  sinkLog (snd (@WriteEntry GoTime.lib None (fst r) (Some Examples.buffer)
                  "svc" "started" InfoLevel Examples.newYear2021 (snd r)))
  = sinkLog (snd (@WriteEntry GoTime.lib None (fst r) (Some Examples.buffer)
                    "svc" "started" InfoLevel 0 (snd r))).
Proof.
  apply (@WriteEntry_no_time GoTime.lib None
           (fst (NewTextEncoder None [TextNoTime] emptyWorld))
           Examples.buffer "svc" "started" InfoLevel Examples.newYear2021 0
           (snd (NewTextEncoder None [TextNoTime] emptyWorld))).
  - live_here.
  - reflexivity.
Defined.

Lemma Add_then_WriteEntry_witness :
  sinkLog (snd (@WriteEntry GoTime.lib None (TextPtr 2) (Some Examples.buffer)
                  "svc" "started" InfoLevel Examples.newYear2021
                  (snd (@AddSimple Examples.floats Examples.strings
                          (@FBool Examples.floats Examples.strings "ok" true) (TextPtr 2)
                          Examples.scenario))))
  = [bs "[I] 2021-01-01T00:00:00Z svc started count=3 ok=true" ++ ["010"%byte]].
Proof.
  apply (@Add_then_WriteEntry GoTime.lib Examples.floats Examples.strings None
           (TextPtr 2) (@FBool Examples.floats Examples.strings "ok" true) Examples.buffer "svc" "started" InfoLevel
           Examples.newYear2021 Examples.scenario).
  live_here.
Defined.

Lemma AddMarshaler_balanced_witness :
  let inner := @Call Examples.floats Examples.strings
                 (@FBool Examples.floats Examples.strings "ok" true) (Return None) in
  let obj := CallMarshaler "in" inner (fun _ => Return (Some (errorString "boom"))) in
  exists appended,
    bytes (load (TextPtr 2)
             (snd (AddMarshaler (TextPtr 2) "k" (MarshalLog obj) Examples.scenario)))
      = bytes (load (TextPtr 2) Examples.scenario) ++ appended /\
    balanced appended.
Proof.
  apply (@AddMarshaler_balanced Examples.floats Examples.strings (TextPtr 2) "k"
           (CallMarshaler "in"
              (@Call Examples.floats Examples.strings
                 (@FBool Examples.floats Examples.strings "ok" true) (Return None))
              (fun _ => Return (Some (errorString "boom"))))
           Examples.scenario).
  - reflexivity.
  - cbn. repeat split; reflexivity.
Defined.
